(** * Region patcher: fix-bot-tabs.py and fix-single-tab.py

    A shallow embedding of the two patch scripts.  A Python [str] is a list
    of Unicode code points; [str.find], [str.count], [str.replace] and
    slicing are modelled with the behaviour CPython documents for them
    (negative indices, the [-1] sentinel of [find], non-overlapping
    left-to-right matching).  Reading and writing the file is explicit: a
    run takes the content read and returns the exit status, the lines
    printed and the content written, if any. *)

From Stdlib Require Import ZArith NArith Lia Ascii String.
From stdpp Require Import base list.

Local Open Scope Z_scope.

(** ** Python strings *)

Definition char := N.
Definition str := list char.

(** An ASCII literal as a Python string. *)
Fixpoint codes (s : string) : str :=
  match s with
  | EmptyString => []
  | String a s' => N_of_ascii a :: codes s'
  end.
Arguments codes _%_string.

Definition len (s : str) : Z := Z.of_nat (length s).

(** [s.startswith(sub)] *)
Fixpoint starts_with (sub s : str) : bool :=
  match sub, s with
  | [], _ => true
  | _ :: _, [] => false
  | a :: sub', b :: s' => (a =? b)%N && starts_with sub' s'
  end.

(** The scan behind [find]: the lowest position of [s] at which [sub]
    starts, counted from [i], or the sentinel [-1]. *)
Fixpoint find_at (sub s : str) (i : Z) : Z :=
  if starts_with sub s then i
  else match s with
       | [] => -1
       | _ :: s' => find_at sub s' (i + 1)
       end.

(** [s.find(sub, start)]: a negative [start] counts from the end, and a
    [start] beyond the end finds nothing. *)
Definition find (s sub : str) (start : Z) : Z :=
  let n := len s in
  let st := if start <? 0 then Z.max (start + n) 0 else start in
  if n <? st then -1 else find_at sub (drop (Z.to_nat st) s) st.

(** A slice bound as CPython adjusts it. *)
Definition clamp_index (i n : Z) : Z :=
  if i <? 0 then Z.max (i + n) 0 else Z.min i n.

(** [s[lo:hi]], either bound possibly omitted. *)
Definition slice (s : str) (lo hi : option Z) : str :=
  let n := len s in
  let l := match lo with None => 0 | Some i => clamp_index i n end in
  let h := match hi with None => n | Some i => clamp_index i n end in
  take (Z.to_nat (h - l)) (drop (Z.to_nat l) s).

(** The scan behind [count]: [skip] characters of a match just counted are
    still to be passed over. *)
Fixpoint count_go (sub s : str) (skip : nat) : nat :=
  match s with
  | [] => O
  | _ :: s' =>
      match skip with
      | S k => count_go sub s' k
      | O => if starts_with sub s
             then S (count_go sub s' (length sub - 1))
             else count_go sub s' O
      end
  end.

(** [s.count(sub)]: non-overlapping occurrences, left to right; the empty
    string is counted between all characters and at both ends. *)
Definition count (s sub : str) : nat :=
  match sub with
  | [] => S (length s)
  | _ :: _ => count_go sub s O
  end.

Fixpoint replace_go (old new s : str) (skip : nat) : str :=
  match s with
  | [] => []
  | c :: s' =>
      match skip with
      | S k => replace_go old new s' k
      | O => if starts_with old s
             then new ++ replace_go old new s' (length old - 1)
             else c :: replace_go old new s' O
      end
  end.

(** [s.replace(old, new)] *)
Definition replace (s old new : str) : str :=
  match old with
  | [] => new ++ flat_map (fun c => c :: new) s
  | _ :: _ => replace_go old new s O
  end.

(** ** What a run does *)

Inductive line :=
| CouldNotFind                                  (* Could not find function boundaries *)
| FoundFunction (func_start func_end : Z)       (* Found function at a:b *)
| FunctionLength (n : nat)                      (* Function length: n characters *)
| Replaced (old new : str) (count : nat)        (* Replaced 'old' -> 'new' (count times) *)
| RemovedTabSection                             (* Removed product tab creation section *)
| RemovedWaitSection                            (* Removed 5-minute confirmation wait section *)
| Updated.                                      (* File updated successfully! and the summary *)

Record run := Run {
  exit_status : Z;
  stdout : list line;
  written : option str      (* what [f.write] put in the file, if it ran *)
}.

(** The file after a run that read [content]. *)
Definition file_after (content : str) (r : run) : str :=
  match written r with
  | Some new_content => new_content
  | None => content
  end.

(** The loop [for old, new in replacements], one turn and all of them, on
    the region text and the lines printed so far. *)
Definition replace_step (st : str * list line) (rule : str * str) : str * list line :=
  let count := count (fst st) (fst rule) in
  if (0 <? count)%nat
  then (replace (fst st) (fst rule) (snd rule),
        snd st ++ [Replaced (fst rule) (snd rule) count])
  else st.

Definition replace_loop (replacements : list (str * str)) (st : str * list line)
  : str * list line :=
  fold_left replace_step replacements st.

(** [x = content.find(m1, start)], then [if x == -1: x = content.find(m2,
    start)] for each further marker: the first marker of the list that is
    found decides. *)
Fixpoint find_first (markers : list str) (content : str) (start : Z) : Z :=
  match markers with
  | [] => -1
  | m :: rest =>
      let x := find content m start in
      match rest with
      | [] => x
      | _ :: _ => if x =? -1 then find_first rest content start else x
      end
  end.

Definition new_content (before_func func_content after_func : str) : str :=
  before_func ++ func_content ++ after_func.

(** The boundaries of the function and the check on them: [None] is the
    branch that prints the failure and calls [exit(1)]. *)
Definition locate (start_markers end_markers : list str) (content : str)
  : option (Z * Z) :=
  let func_start := find_first start_markers content 0 in
  let func_end := find_first end_markers content func_start in
  if (func_start =? -1) || (func_end =? -1) then None
  else Some (func_start, func_end).

(** The body shared by the two scripts, with the marker lists and the
    rewriting of the region as parameters. *)
Definition patch (start_markers end_markers : list str)
    (rewrite : str * list line -> str * list line) (content : str) : run :=
  match locate start_markers end_markers content with
  | None => Run 1 [CouldNotFind] None
  | Some (func_start, func_end) =>
      let before_func := slice content None (Some func_start) in
      let func_content := slice content (Some func_start) (Some func_end) in
      let after_func := slice content (Some func_end) None in
      let out := [FoundFunction func_start func_end;
                  FunctionLength (length func_content)] in
      let st := rewrite (func_content, out) in
      Run 0 (snd st ++ [Updated])
          (Some (new_content before_func (fst st) after_func))
  end.

Definition start_markers : list str :=
  [codes "// Internal submission function (can retry if frame detaches)";
   codes "async function submitToSparxNowInternal("].

(** ** fix-bot-tabs.py *)
Module FixBotTabs.

Definition end_markers : list str :=
  [codes "// API endpoints for Express server"; codes "module.exports ="].

Definition replacements : list (str * str) :=
[
 (codes "await page.evaluate", codes "await productPage.evaluate");
 (codes "await page.goto", codes "await productPage.goto");
 (codes "await page.screenshot", codes "await productPage.screenshot");
 (codes "await page.waitForSelector", codes "await productPage.waitForSelector");
 (codes "await page.waitForFunction", codes "await productPage.waitForFunction");
 (codes "await page.keyboard", codes "await productPage.keyboard");
 (codes "await page.type", codes "await productPage.type");
 (codes "await page.click", codes "await productPage.click");
 (codes "await page.evaluateHandle", codes "await productPage.evaluateHandle");
 (codes " page.evaluate", codes " productPage.evaluate");
 (codes " page.goto", codes " productPage.goto");
 (codes " page.screenshot", codes " productPage.screenshot");
 (codes " page.waitForSelector", codes " productPage.waitForSelector");
 (codes " page.waitForFunction", codes " productPage.waitForFunction");
 (codes " page.keyboard", codes " productPage.keyboard");
 (codes " page.type", codes " productPage.type");
 (codes " page.click", codes " productPage.click");
 (codes " page.evaluateHandle", codes " productPage.evaluateHandle")
].

Definition main : str -> run :=
  patch start_markers end_markers (replace_loop replacements).

End FixBotTabs.

(** ** fix-single-tab.py *)
Module FixSingleTab.

Definition end_markers : list str := [codes "module.exports ="].

Definition replacements : list (str * str) :=
[
 (codes "productPage.evaluate", codes "page.evaluate");
 (codes "productPage.goto", codes "page.goto");
 (codes "productPage.screenshot", codes "page.screenshot");
 (codes "productPage.waitForSelector", codes "page.waitForSelector");
 (codes "productPage.waitForFunction", codes "page.waitForFunction");
 (codes "productPage.keyboard", codes "page.keyboard");
 (codes "productPage.type", codes "page.type");
 (codes "productPage.click", codes "page.click");
 (codes "productPage.evaluateHandle", codes "page.evaluateHandle")
].

Definition tab_start : str := codes "// Get or create the product-specific tab".
Definition tab_end : str :=
  codes "console.log(`" ++ [128269%N] ++ codes " Navigating " ++ [34%N]
  ++ codes "${productName}" ++ [34%N] ++ codes " tab to channel...`);".

Definition wait_start : str := codes "// Wait for confirmation message".
Definition complete : str := [39%N; 9989%N] ++ codes " Submission complete!".
Definition wait_end : str := codes "console.log(" ++ complete.
Definition no_wait : str :=
  codes "// No confirmation wait - submission complete immediately"
  ++ [10%N] ++ codes "    console.log(" ++ complete.

(** Remove the "Get or create product tab" section. *)
Definition remove_tab_section (st : str * list line) : str * list line :=
  let func_content := fst st in
  let tab_section_start := find func_content tab_start 0 in
  let tab_section_end := find func_content tab_end 0 in
  if negb (tab_section_start =? -1) && negb (tab_section_end =? -1)
  then
    let before_tab := slice func_content None (Some tab_section_start) in
    let after_tab := slice func_content (Some tab_section_end) None in
    (before_tab ++ after_tab, snd st ++ [RemovedTabSection])
  else st.

(** Remove the 5-minute confirmation wait section. *)
Definition remove_wait_section (st : str * list line) : str * list line :=
  let func_content := fst st in
  let wait_section_start := find func_content wait_start 0 in
  let wait_section_end := find func_content wait_end 0 in
  if negb (wait_section_start =? -1) && negb (wait_section_end =? -1)
  then
    let before_wait := slice func_content None (Some wait_section_start) in
    let after_wait := slice func_content (Some wait_section_end) None in
    (before_wait ++ no_wait
       ++ slice after_wait (Some (find after_wait complete 0 + len complete)) None,
     snd st ++ [RemovedWaitSection])
  else st.

Definition rewrite (st : str * list line) : str * list line :=
  remove_wait_section (remove_tab_section (replace_loop replacements st)).

Definition main : str -> run := patch start_markers end_markers rewrite.

End FixSingleTab.


(** The region text [patch] puts back: [func_content] after the rewriting,
    when the boundaries are found. *)
Definition region_after (start_markers end_markers : list str)
    (rewrite : str * list line -> str * list line) (content : str) : option str :=
  match locate start_markers end_markers content with
  | None => None
  | Some (func_start, func_end) =>
      let func_content := slice content (Some func_start) (Some func_end) in
      Some (fst (rewrite (func_content,
                          [FoundFunction func_start func_end;
                           FunctionLength (length func_content)])))
  end.

(** The scenario of the specification: the body of the scripts with the
    markers HEAD and TAIL and a single rule. *)
Definition scenario_document : str :=
  codes "HEAD" ++ [10%N] ++ codes "await page.click(x);" ++ [10%N] ++ codes "TAIL".

Definition scenario_output : str :=
  codes "HEAD" ++ [10%N] ++ codes "await productPage.click(x);" ++ [10%N]
  ++ codes "TAIL".

Definition scenario_rule : str * str := (codes "page.click", codes "productPage.click").
Definition scenario_inverse : str * str := (codes "productPage.click", codes "page.click").

Definition scenario_patch (rule : str * str) : str -> run :=
  patch [codes "HEAD"] [codes "TAIL"] (replace_loop [rule]).

Definition scenario_region (rule : str * str) : str -> option str :=
  region_after [codes "HEAD"] [codes "TAIL"] (replace_loop [rule]).

(** The two scripts side by side. *)
Inductive script := FixBotTabsPy | FixSingleTabPy.

Definition end_markers_of (sc : script) : list str :=
  match sc with
  | FixBotTabsPy => FixBotTabs.end_markers
  | FixSingleTabPy => FixSingleTab.end_markers
  end.

Definition replacements_of (sc : script) : list (str * str) :=
  match sc with
  | FixBotTabsPy => FixBotTabs.replacements
  | FixSingleTabPy => FixSingleTab.replacements
  end.

Definition rewrite_of (sc : script) : str * list line -> str * list line :=
  match sc with
  | FixBotTabsPy => replace_loop FixBotTabs.replacements
  | FixSingleTabPy => FixSingleTab.rewrite
  end.

Definition main_of (sc : script) : str -> run :=
  match sc with
  | FixBotTabsPy => FixBotTabs.main
  | FixSingleTabPy => FixSingleTab.main
  end.

(** ** Occurrences *)

(** The number of positions of [s] at which [sub] starts, overlapping
    occurrences included. *)
Fixpoint occurrences (sub s : str) : nat :=
  ((if starts_with sub s then 1 else 0)
   + match s with [] => 0 | _ :: s' => occurrences sub s' end)%nat.

(** [sub] starts at position [i] of [s]. *)
Definition occurs_at (sub s : str) (i : Z) : Prop :=
  0 <= i <= len s /\ starts_with sub (drop (Z.to_nat i) s) = true.

(** [i] is the lowest position from [start] on at which [sub] starts. *)
Definition first_from (sub s : str) (start i : Z) : Prop :=
  start <= i /\ occurs_at sub s i
  /\ forall j, start <= j < i -> ~ occurs_at sub s j.

(** [sub] starts nowhere from [start] on. *)
Definition absent_from (sub s : str) (start : Z) : Prop :=
  forall j, start <= j -> ~ occurs_at sub s j.

(** [i] is the first occurrence from [start] on of the first marker of the
    list that occurs from [start] on. *)
Definition decides (markers : list str) (content : str) (start i : Z) : Prop :=
  exists before m after, markers = before ++ m :: after
    /\ (forall m', In m' before -> absent_from m' content start)
    /\ first_from m content start i.

(** [result] is [region] with the characters from offset [s] up to
    offset [e] taken out, and nothing else changed. *)
Definition deletes_span (region : str) (s e : Z) (result : str) : Prop :=
  exists before removed after_,
    region = before ++ removed ++ after_
    /\ len before = s /\ len (before ++ removed) = e
    /\ result = before ++ after_.

(** One of the two is a prefix of the other. *)
Definition comparable (a b : str) : bool := starts_with a b || starts_with b a.

(** In no text does [v] start at an offset [d >= k] inside an occurrence of
    [u]; with [k = 1] and [v = u], [u] does not overlap itself. *)
Definition inside_free (k : nat) (u v : str) : Prop :=
  forall d x, (k <= d < length u)%nat -> starts_with v (drop d u ++ x) = false.

Definition inside_freeb (k : nat) (u v : str) : bool :=
  forallb (fun d => negb (comparable (drop d u) v)) (seq k (length u - k)).

(** The occurrences of [u] and of [v] in a text never overlap. *)
Definition apartb (u v : str) : bool :=
  inside_freeb 0 u v && inside_freeb 0 v u.

(** What is checked of a rule [(p, r)] of the tables: neither word is
    empty, their occurrences never overlap, neither overlaps itself, and
    [r] does not contain [p]. *)
Definition rule_ok (rule : str * str) : bool :=
  let p := fst rule in
  let r := snd rule in
  (0 <? length p)%nat && (0 <? length r)%nat
  && apartb p r && inside_freeb 1 p p && inside_freeb 1 r r
  && (occurrences p r =? 0)%nat.

(** The methods of [page] the tables of fix-bot-tabs.py name, in the order
    of the tables, and the two rules of a method. *)
Definition methods : list str :=
  [codes "evaluate"; codes "goto"; codes "screenshot"; codes "waitForSelector";
   codes "waitForFunction"; codes "keyboard"; codes "type"; codes "click";
   codes "evaluateHandle"].

Definition await_rule (x : str) : str * str :=
  (codes "await page." ++ x, codes "await productPage." ++ x).

Definition plain_rule (x : str) : str * str :=
  (codes " page." ++ x, codes " productPage." ++ x).

Definition method_ok (x : str) : bool :=
  let p := fst (plain_rule x) in
  let r := snd (plain_rule x) in
  (0 <? length p)%nat
  && inside_freeb 0 (codes "await") p && inside_freeb 0 r p
  && inside_freeb 0 p (codes "await" ++ p) && inside_freeb 0 p r.

(** What is checked of a whole table: no word is empty, and the
    occurrences of any pattern never overlap those of any replacement. *)
Definition table_ok (rules : list (str * str)) : bool :=
  forallb (fun a => (0 <? length (fst a))%nat && (0 <? length (snd a))%nat
                    && forallb (fun b => apartb (fst a) (snd b)) rules) rules.

(** What is checked of the patterns of fix-single-tab.py against the text
    its excisions put at the seam. *)
Definition seams_ok (rules : list (str * str)) : bool :=
  forallb (fun a => inside_freeb 0 (fst a) FixSingleTab.tab_end
                    && apartb (fst a) FixSingleTab.no_wait) rules.

(** Both boundaries can be found: a start marker occurs in the document
    and an end marker occurs at or after the start offset. *)
Definition boundaries_present (sc : script) (content : str) : Prop :=
  (exists m i, In m start_markers /\ occurs_at m content i)
  /\ (exists m j, In m (end_markers_of sc)
         /\ find_first start_markers content 0 <= j /\ occurs_at m content j).

(** The lines the rewriting of a script may print: a replacement of a rule
    of its table with a positive count, or, in fix-single-tab.py, the
    removal of a section. *)
Definition rewrite_line (sc : script) (l : line) : Prop :=
  match l with
  | Replaced old new n => In (old, new) (replacements_of sc) /\ (0 < n)%nat
  | RemovedTabSection | RemovedWaitSection => sc = FixSingleTabPy
  | _ => False
  end.

(** The characters a replaced occurrence adds to the region. *)
Definition growth (sc : script) : Z :=
  match sc with
  | FixBotTabsPy => 7
  | FixSingleTabPy => -7
  end.

Definition growth_ok (sc : script) : bool :=
  forallb (fun rule => (0 <? length (fst rule))%nat
                       && (len (snd rule) - len (fst rule) =? growth sc))
          (replacements_of sc).



(** A table without its rules for [evaluateHandle]. *)
Definition without_handle (rules : list (str * str)) : list (str * str) :=
  List.filter
    (fun rule => negb (starts_with (rev (codes "evaluateHandle")) (rev (fst rule))))
    rules.

(** The rule of fix-single-tab.py for a method, and what is checked of it
    to undo the rules of fix-bot-tabs.py for the method. *)
Definition single_rule (x : str) : str * str :=
  (codes "productPage." ++ x, codes "page." ++ x).

Definition inverse_ok (x : str) : bool :=
  let r' := fst (single_rule x) in
  (0 <? length (snd (single_rule x)))%nat && (0 <? length r')%nat
  && inside_freeb 0 (codes " ") r' && inside_freeb 0 (codes "await ") r'
  && inside_freeb 1 r' r'.

(** What is checked of the markers of a script for a second run: no
    marker is empty or overlaps itself; no end marker and no pattern starts
    inside a start marker; the occurrences of a marker never overlap those
    of a replacement; and of two markers of one list, either the first is a
    prefix of the second or the second never starts inside the first. *)
Definition rerun_ok (sc : script) : bool :=
  forallb (fun m =>
             (0 <? length m)%nat && inside_freeb 1 m m
             && forallb (fun e => inside_freeb 0 m e) (end_markers_of sc)
             && forallb (fun rule => inside_freeb 0 m (fst rule)
                                     && apartb m (snd rule)) (replacements_of sc)
             && forallb (fun m2 => starts_with m m2 || inside_freeb 0 m m2)
                        start_markers)
          start_markers
  && forallb (fun e =>
                (0 <? length e)%nat && inside_freeb 1 e e
                && forallb (fun rule => apartb e (snd rule)) (replacements_of sc)
                && forallb (fun e2 => starts_with e e2 || inside_freeb 0 e e2)
                           (end_markers_of sc))
             (end_markers_of sc).

(** The sum of the counts of the replacement lines printed. *)
Fixpoint replaced_total (lines : list line) : nat :=
  match lines with
  | [] => O
  | Replaced _ _ n :: rest => (n + replaced_total rest)%nat
  | _ :: rest => replaced_total rest
  end.

(** ** Prefixes *)

Lemma starts_with_app (a x : str) : starts_with a (a ++ x) = true.
Proof.
  induction a as [|c a IH]; simpl; [reflexivity|].
  rewrite N.eqb_refl. exact IH.
Qed.

Lemma starts_with_split (a s : str) :
  starts_with a s = true -> s = a ++ drop (length a) s.
Proof.
  revert s. induction a as [|c a IH]; intros [|b s] H; simpl in *;
    try reflexivity; try discriminate.
  apply andb_true_iff in H as [Hc Ha]. apply N.eqb_eq in Hc. subst b.
  f_equal. apply IH, Ha.
Qed.

Lemma starts_with_length (a s : str) :
  starts_with a s = true -> (length a <= length s)%nat.
Proof.
  intros H. rewrite (starts_with_split _ _ H), length_app. lia.
Qed.

Lemma starts_with_nil_r (a : str) : a <> [] -> starts_with a [] = false.
Proof. destruct a; [congruence | reflexivity]. Qed.

(** Two prefixes of one text are comparable. *)
Lemma prefixes_comparable (a b s : str) :
  starts_with a s = true -> starts_with b s = true -> comparable a b = true.
Proof.
  unfold comparable. revert b s.
  induction a as [|c a IH]; intros b s Ha Hb; [reflexivity|].
  destruct b as [|e b]; [reflexivity|].
  destruct s as [|f s]; simpl in *; [discriminate|].
  apply andb_true_iff in Ha as [Hc Ha]. apply andb_true_iff in Hb as [He Hb].
  apply N.eqb_eq in Hc. apply N.eqb_eq in He. subst c e.
  rewrite N.eqb_refl. simpl. exact (IH b s Ha Hb).
Qed.

(** A prefix of [a ++ y] longer than [a] continues as a prefix of [y]. *)
Lemma starts_with_drop (q a y : str) :
  starts_with q (a ++ y) = true -> (length a <= length q)%nat ->
  starts_with (drop (length a) q) y = true.
Proof.
  revert q. induction a as [|c a IH]; intros q H Hl; simpl in *.
  - rewrite drop_0. exact H.
  - destruct q as [|e q]; simpl in *; [lia|].
    apply andb_true_iff in H as [_ H]. apply IH; [exact H | lia].
Qed.

(** A prefix of [a ++ y] no longer than [a] is a prefix of [a ++ z]. *)
Lemma starts_with_short (q a y z : str) :
  starts_with q (a ++ y) = true -> (length q <= length a)%nat ->
  starts_with q (a ++ z) = true.
Proof.
  revert q. induction a as [|c a IH]; intros q H Hl; simpl in *.
  - destruct q; [reflexivity | simpl in Hl; lia].
  - destruct q as [|e q]; [reflexivity|]. simpl in *.
    apply andb_true_iff in H as [Hc H]. rewrite Hc. simpl.
    apply IH; [exact H | lia].
Qed.

Lemma inside_freeb_sound (k : nat) (u v : str) :
  inside_freeb k u v = true -> inside_free k u v.
Proof.
  unfold inside_freeb, inside_free. intros H d x Hd.
  rewrite forallb_forall in H.
  specialize (H d). rewrite in_seq in H.
  destruct (starts_with v (drop d u ++ x)) eqn:E; [|reflexivity].
  assert (Hc : comparable (drop d u) v = true)
    by (apply (prefixes_comparable _ _ (drop d u ++ x));
        [apply starts_with_app | exact E]).
  rewrite Hc in H. simpl in H. symmetry. apply H. lia.
Qed.

(** When [r] never starts inside [q], a prefix [q] of a text cannot reach
    into an occurrence of [r] that starts before [q] ends. *)
Lemma inside_free_blocks (q r a x : str) :
  inside_free 0 q r -> (length a < length q)%nat ->
  starts_with q (a ++ r ++ x) = false.
Proof.
  intros Hf Hl. destruct (starts_with q (a ++ r ++ x)) eqn:E; [|reflexivity].
  pose proof (starts_with_split _ _ E) as Hs.
  set (z := drop (length q) (a ++ r ++ x)) in Hs.
  assert (Hq : q = a ++ drop (length a) q).
  { rewrite <- (take_drop (length a) q) at 1. f_equal.
    apply (f_equal (take (length a))) in Hs.
    rewrite take_app_length in Hs.
    rewrite take_app_le in Hs by lia. symmetry. exact Hs. }
  assert (Hr : r ++ x = drop (length a) q ++ z).
  { rewrite Hq in Hs at 1. rewrite <- app_assoc in Hs.
    apply app_inv_head in Hs. exact Hs. }
  specialize (Hf (length a) z ltac:(lia)).
  rewrite <- Hr, starts_with_app in Hf. discriminate.
Qed.

Lemma drop_next (k : nat) (a : str) (c : char) (t : str) :
  drop k a = c :: t -> t = drop (S k) a.
Proof.
  intros E. replace (S k) with (k + 1)%nat by lia.
  rewrite <- drop_drop, E. reflexivity.
Qed.

(** ** The equations of [replace] and [count] *)

Lemma replace_go_skip (old new a s : str) :
  replace_go old new (a ++ s) (length a) = replace_go old new s O.
Proof. induction a as [|c a IH]; simpl; [reflexivity | exact IH]. Qed.

Lemma count_go_skip (sub a s : str) :
  count_go sub (a ++ s) (length a) = count_go sub s O.
Proof. induction a as [|c a IH]; simpl; [reflexivity | exact IH]. Qed.

Section Scan.
Variables old new : str.
Hypothesis old_nonempty : old <> [].

Lemma replace_nil : replace [] old new = [].
Proof using old_nonempty. destruct old; [congruence | reflexivity]. Qed.

Lemma replace_hit (s : str) :
  replace (old ++ s) old new = new ++ replace s old new.
Proof using old_nonempty.
  destruct old as [|c o] eqn:E; [congruence|].
  unfold replace. change ((c :: o) ++ s) with (c :: (o ++ s)).
  cbn [replace_go]. change (c :: o ++ s) with ((c :: o) ++ s).
  rewrite starts_with_app. cbn [length].
  replace (S (length o) - 1)%nat with (length o) by lia.
  rewrite replace_go_skip. reflexivity.
Qed.

Lemma replace_miss (c : char) (s : str) :
  starts_with old (c :: s) = false ->
  replace (c :: s) old new = c :: replace s old new.
Proof using old_nonempty.
  intros H. destruct old as [|e o] eqn:E; [congruence|].
  unfold replace. cbn [replace_go]. rewrite H. reflexivity.
Qed.

Lemma count_nil : count [] old = O.
Proof using old_nonempty. destruct old; [congruence | reflexivity]. Qed.

Lemma count_hit (s : str) : count (old ++ s) old = S (count s old).
Proof using old_nonempty.
  destruct old as [|c o] eqn:E; [congruence|].
  unfold count. change ((c :: o) ++ s) with (c :: (o ++ s)).
  cbn [count_go]. change (c :: o ++ s) with ((c :: o) ++ s).
  rewrite starts_with_app. cbn [length].
  replace (S (length o) - 1)%nat with (length o) by lia.
  rewrite count_go_skip. reflexivity.
Qed.

Lemma count_miss (c : char) (s : str) :
  starts_with old (c :: s) = false -> count (c :: s) old = count s old.
Proof using old_nonempty.
  intros H. destruct old as [|e o] eqn:E; [congruence|].
  unfold count. cbn [count_go]. rewrite H. reflexivity.
Qed.

(** Induction along the scan: the text is empty, or starts with a match
    that is passed over whole, or starts with a character that is kept. *)
Lemma scan_ind (P : str -> Prop) :
  P [] ->
  (forall s, P s -> P (old ++ s)) ->
  (forall c s, starts_with old (c :: s) = false -> P s -> P (c :: s)) ->
  forall s, P s.
Proof using old_nonempty.
  intros Hnil Hhit Hmiss s.
  remember (length s) as n eqn:Hn. revert s Hn.
  induction n as [n IH] using lt_wf_ind. intros s Hn.
  destruct s as [|c s]; [exact Hnil|].
  destruct (starts_with old (c :: s)) eqn:E.
  - rewrite (starts_with_split _ _ E). apply Hhit.
    apply (IH (length (drop (length old) (c :: s)))); [|reflexivity].
    subst n. rewrite length_drop. destruct old; [congruence|]. simpl. lia.
  - apply Hmiss; [exact E|]. apply (IH (length s)); [|reflexivity].
    subst n. simpl. lia.
Qed.

(** The scan passes over a stretch of text in which no match starts. *)
Lemma replace_pass (k : nat) (a x : str) :
  (forall d, (k <= d < length a)%nat -> starts_with old (drop d a ++ x) = false) ->
  replace (drop k a ++ x) old new = drop k a ++ replace x old new.
Proof using old_nonempty.
  intros H. remember (length a - k)%nat as m eqn:Hm. revert k H Hm.
  induction m as [|m IH]; intros k H Hm.
  - rewrite drop_ge by lia. reflexivity.
  - destruct (drop k a) as [|c t] eqn:E.
    { apply (f_equal length) in E. rewrite length_drop in E. simpl in E. lia. }
    pose proof (drop_next _ _ _ _ E) as Et.
    simpl. rewrite replace_miss.
    + f_equal. rewrite Et. apply IH; [intros d Hd; apply H; lia | lia].
    + change (c :: t ++ x) with ((c :: t) ++ x). rewrite <- E. apply H. lia.
Qed.

Lemma count_pass (k : nat) (a x : str) :
  (forall d, (k <= d < length a)%nat -> starts_with old (drop d a ++ x) = false) ->
  count (drop k a ++ x) old = count x old.
Proof using old_nonempty.
  intros H. remember (length a - k)%nat as m eqn:Hm. revert k H Hm.
  induction m as [|m IH]; intros k H Hm.
  - rewrite drop_ge by lia. reflexivity.
  - destruct (drop k a) as [|c t] eqn:E.
    { apply (f_equal length) in E. rewrite length_drop in E. simpl in E. lia. }
    pose proof (drop_next _ _ _ _ E) as Et.
    simpl. rewrite count_miss.
    + rewrite Et. apply IH; [intros d Hd; apply H; lia | lia].
    + change (c :: t ++ x) with ((c :: t) ++ x). rewrite <- E. apply H. lia.
Qed.

Lemma replace_over (a x : str) :
  inside_free 0 a old ->
  replace (a ++ x) old new = a ++ replace x old new.
Proof using old_nonempty.
  intros H. apply (replace_pass 0 a x). intros d Hd. apply H. exact Hd.
Qed.

Lemma count_over (a x : str) :
  inside_free 0 a old -> count (a ++ x) old = count x old.
Proof using old_nonempty.
  intros H. apply (count_pass 0 a x). intros d Hd. apply H. exact Hd.
Qed.

(** A prefix [q] of the rewritten text is a prefix of the text, or the
    first replacement begins before [q] ends. *)
Lemma replace_head (q s : str) :
  starts_with q (replace s old new) = true ->
  starts_with q s = true
  \/ exists a s', s = a ++ old ++ s'
       /\ replace s old new = a ++ new ++ replace s' old new
       /\ (length a < length q)%nat.
Proof using old_nonempty.
  revert q. induction s as [|s IH|c s Hc IH] using scan_ind; intros q H.
  - left. rewrite replace_nil in H. exact H.
  - destruct q as [|e q]; [left; reflexivity|].
    right. exists [], s. rewrite replace_hit. simpl. repeat split. lia.
  - rewrite (replace_miss _ _ Hc) in H.
    destruct q as [|e q]; [left; reflexivity|].
    simpl in H. apply andb_true_iff in H as [He H].
    destruct (IH q H) as [Hq | (a & s' & Hs & Hr & Hl)].
    + left. simpl. rewrite He, Hq. reflexivity.
    + right. exists (c :: a), s'. rewrite (replace_miss _ _ Hc).
      simpl. rewrite Hs at 1. rewrite Hr. repeat split. lia.
Qed.
End Scan.

Lemma occurrences_pass (q : str) (k : nat) (a x : str) :
  (forall d, (k <= d < length a)%nat -> starts_with q (drop d a ++ x) = false) ->
  occurrences q (drop k a ++ x) = occurrences q x.
Proof.
  intros H. remember (length a - k)%nat as m eqn:Hm. revert k H Hm.
  induction m as [|m IH]; intros k H Hm.
  - rewrite drop_ge by lia. reflexivity.
  - destruct (drop k a) as [|c t] eqn:E.
    { apply (f_equal length) in E. rewrite length_drop in E. simpl in E. lia. }
    pose proof (drop_next _ _ _ _ E) as Et.
    assert (Hk : starts_with q ((c :: t) ++ x) = false)
      by (rewrite <- E; apply H; lia).
    cbn [app occurrences]. simpl in Hk. rewrite Hk. simpl.
    rewrite Et. apply IH; [intros d Hd; apply H; lia | lia].
Qed.

Lemma occurrences_over (q a x : str) :
  inside_free 0 a q -> occurrences q (a ++ x) = occurrences q x.
Proof.
  intros H. apply (occurrences_pass q 0 a x). intros d Hd. apply H. exact Hd.
Qed.

Lemma occurrences_cons (q : str) (c : char) (s : str) :
  occurrences q (c :: s)
  = ((if starts_with q (c :: s) then 1 else 0) + occurrences q s)%nat.
Proof. reflexivity. Qed.

(** ** One rule *)

Lemma occurrences_app_le (q a x : str) :
  (occurrences q x <= occurrences q (a ++ x))%nat.
Proof.
  induction a as [|c a IH]; [reflexivity|].
  change ((c :: a) ++ x) with (c :: (a ++ x)). rewrite occurrences_cons. lia.
Qed.

Lemma occurrences_none_head (q s : str) :
  occurrences q s = O -> starts_with q s = false.
Proof.
  destruct s as [|c s]; simpl; destruct (starts_with q _); simpl; congruence.
Qed.

(** A word that does not overlap itself, counted after its own occurrence. *)
Lemma occurrences_own (q x : str) :
  q <> [] -> inside_free 1 q q ->
  occurrences q (q ++ x) = S (occurrences q x).
Proof.
  intros Hq Hf.
  assert (Hd : exists c, q ++ x = c :: (drop 1 q ++ x))
    by (destruct q as [|c q']; [congruence | exists c; reflexivity]).
  destruct Hd as [c Hd].
  rewrite Hd, occurrences_cons, <- Hd, starts_with_app.
  rewrite occurrences_pass; [reflexivity|].
  intros d Hdl. apply Hf. exact Hdl.
Qed.

Section Rule.
Variables p r : str.
Hypothesis p_nonempty : p <> [].
Hypothesis r_nonempty : r <> [].

(** A word [q] whose occurrences never overlap those of [r] is not
    brought into a text by the rule. *)
Lemma replace_creates_none (q : str) :
  inside_free 0 q r -> inside_free 0 r q ->
  forall s, occurrences q s = O -> occurrences q (replace s p r) = O.
Proof using p_nonempty r_nonempty.
  intros Hqr Hrq.
  induction s as [|s IH|c s Hc IH] using (scan_ind p p_nonempty); intros H0.
  - rewrite replace_nil by assumption. exact H0.
  - rewrite replace_hit by assumption.
    rewrite occurrences_over by exact Hrq.
    apply IH. pose proof (occurrences_app_le q p s). lia.
  - rewrite (replace_miss _ _ p_nonempty _ _ Hc), occurrences_cons.
    rewrite occurrences_cons in H0.
    assert (H1 : occurrences q s = O) by lia.
    rewrite (IH H1), Nat.add_0_r.
    destruct (starts_with q (c :: replace s p r)) eqn:E; [|reflexivity].
    rewrite <- (replace_miss _ _ p_nonempty _ _ Hc) in E.
    destruct (replace_head p r p_nonempty _ _ E) as [Hq | (a & s' & _ & Hr & Hl)].
    + rewrite Hq in H0. simpl in H0. lia.
    + rewrite Hr, (inside_free_blocks q r a _ Hqr Hl) in E. discriminate.
Qed.

Hypothesis p_r : inside_free 0 p r.
Hypothesis r_p : inside_free 0 r p.

(** After the rule the pattern starts nowhere. *)
Lemma replace_removes_all (s : str) : occurrences p (replace s p r) = O.
Proof using p_nonempty r_nonempty p_r r_p.
  induction s as [|s IH|c s Hc IH] using (scan_ind p p_nonempty).
  - rewrite replace_nil by assumption. simpl.
    rewrite starts_with_nil_r by assumption. reflexivity.
  - rewrite replace_hit by assumption.
    rewrite occurrences_over by exact r_p.
    exact IH.
  - rewrite (replace_miss _ _ p_nonempty _ _ Hc), occurrences_cons, IH, Nat.add_0_r.
    destruct (starts_with p (c :: replace s p r)) eqn:E; [|reflexivity].
    rewrite <- (replace_miss _ _ p_nonempty _ _ Hc) in E.
    destruct (replace_head p r p_nonempty _ _ E) as [Hq | (a & s' & _ & Hr & Hl)].
    + congruence.
    + rewrite Hr, (inside_free_blocks p r a _ p_r Hl) in E. discriminate.
Qed.

(** [count] is the number of occurrences of a pattern that does not
    overlap itself. *)
Lemma count_occurrences (s : str) :
  inside_free 1 p p -> count s p = occurrences p s.
Proof using p_nonempty.
  intros Hf. induction s as [|s IH|c s Hc IH] using (scan_ind p p_nonempty).
  - rewrite count_nil by assumption. simpl.
    rewrite starts_with_nil_r by assumption. reflexivity.
  - rewrite count_hit, occurrences_own by assumption. rewrite IH. reflexivity.
  - rewrite (count_miss _ p_nonempty _ _ Hc), occurrences_cons, Hc, IH.
    reflexivity.
Qed.

(** The rule adds one occurrence of the replacement for each match and
    leaves the others as they are. *)
Lemma replace_adds (s : str) :
  inside_free 1 r r ->
  occurrences r (replace s p r) = (occurrences r s + count s p)%nat.
Proof using p_nonempty r_nonempty p_r r_p.
  intros Hrr. induction s as [|s IH|c s Hc IH] using (scan_ind p p_nonempty).
  - rewrite replace_nil, count_nil by assumption. simpl. lia.
  - rewrite replace_hit, count_hit by assumption.
    rewrite occurrences_own by assumption.
    rewrite (occurrences_over r p) by exact p_r.
    rewrite IH. lia.
  - rewrite (replace_miss _ _ p_nonempty _ _ Hc), (count_miss _ p_nonempty _ _ Hc).
    rewrite !occurrences_cons, IH.
    enough (starts_with r (c :: replace s p r) = starts_with r (c :: s)) as ->
      by lia.
    rewrite <- (replace_miss _ _ p_nonempty _ _ Hc).
    destruct (starts_with r (c :: s)) eqn:Es.
    + rewrite (starts_with_split _ _ Es), replace_over by assumption.
      apply starts_with_app.
    + destruct (starts_with r (replace (c :: s) p r)) eqn:E; [|reflexivity].
      destruct (replace_head p r p_nonempty _ _ E) as [Hq | (a & s' & Hs & Hr & Hl)].
      * congruence.
      * destruct a as [|e a].
        { simpl in Hs. rewrite Hs, starts_with_app in Hc. discriminate. }
        rewrite Hr in E. exfalso.
        assert (Hl' : (length (e :: a) <= length r)%nat) by lia.
        generalize (starts_with_drop _ _ _ E Hl'). intros Hd.
        pose proof (starts_with_split _ _ Hd) as Hx.
        specialize (Hrr (length (e :: a))
                        (drop (length (drop (length (e :: a)) r))
                              (r ++ replace s' p r))).
        rewrite <- Hx, starts_with_app in Hrr.
        assert (Hlt : (1 <= length (e :: a) < length r)%nat) by (simpl in *; lia).
        specialize (Hrr Hlt). discriminate.
Qed.
End Rule.

(** ** [find] *)

Lemma find_at_cases (sub s : str) (i : Z) :
  0 <= i ->
  (find_at sub s i = -1
   /\ forall k, (k <= length s)%nat -> starts_with sub (drop k s) = false)
  \/ exists k, (k <= length s)%nat
       /\ find_at sub s i = i + Z.of_nat k
       /\ starts_with sub (drop k s) = true
       /\ forall j, (j < k)%nat -> starts_with sub (drop j s) = false.
Proof.
  revert i. induction s as [|c s IH]; intros i Hi.
  - simpl. destruct (starts_with sub []) eqn:E.
    + right. exists O. simpl. repeat split; try assumption; intros; lia.
    + left. split; [reflexivity|]. intros k Hk. rewrite drop_nil. exact E.
  - cbn [find_at]. destruct (starts_with sub (c :: s)) eqn:E.
    + right. exists O. simpl. repeat split; try assumption; intros; lia.
    + destruct (IH (i + 1) ltac:(lia)) as [[H1 H2] | (k & Hk & H1 & H2 & H3)].
      * left. split; [exact H1|]. intros [|k] Hk; [exact E|].
        simpl. apply H2. simpl in Hk. lia.
      * right. exists (S k). simpl. repeat split; try lia; try assumption.
        intros [|j] Hj; [exact E|]. simpl. apply H3. lia.
Qed.

Lemma find_cases (s sub : str) (start : Z) :
  0 <= start ->
  (find s sub start = -1 /\ absent_from sub s start)
  \/ (find s sub start <> -1 /\ first_from sub s start (find s sub start)).
Proof.
  intros Hs. unfold find, len.
  replace (start <? 0) with false by (symmetry; apply Z.ltb_ge; lia).
  destruct (Z.of_nat (length s) <? start) eqn:E.
  - left. split; [reflexivity|]. apply Z.ltb_lt in E.
    intros j Hj [Hr _]. unfold len in Hr. lia.
  - apply Z.ltb_ge in E.
    destruct (find_at_cases sub (drop (Z.to_nat start) s) start Hs)
      as [[H1 H2] | (k & Hk & H1 & H2 & H3)].
    + left. split; [exact H1|]. intros j Hj [Hr Ho]. unfold len in Hr.
      specialize (H2 (Z.to_nat j - Z.to_nat start)%nat).
      rewrite length_drop, drop_drop in H2.
      replace (Z.to_nat start + (Z.to_nat j - Z.to_nat start))%nat
        with (Z.to_nat j) in H2 by lia.
      rewrite H2 in Ho by lia. discriminate.
    + right. rewrite length_drop in Hk. rewrite drop_drop in H2.
      rewrite H1. split; [lia|]. repeat split; unfold len; try lia.
      * replace (Z.to_nat (start + Z.of_nat k)) with (Z.to_nat start + k)%nat
          by lia. exact H2.
      * intros j Hj [_ Ho].
        specialize (H3 (Z.to_nat j - Z.to_nat start)%nat ltac:(lia)).
        rewrite drop_drop in H3.
        replace (Z.to_nat start + (Z.to_nat j - Z.to_nat start))%nat
          with (Z.to_nat j) in H3 by lia.
        congruence.
Qed.

(** The marker that decides [find_first] is the first of the list that
    occurs from [start] on, and the result is its first occurrence. *)
Lemma find_first_cases (markers : list str) (content : str) (start : Z) :
  0 <= start ->
  (find_first markers content start = -1
   /\ forall m, In m markers -> absent_from m content start)
  \/ (find_first markers content start <> -1
      /\ exists before m after, markers = before ++ m :: after
           /\ (forall m', In m' before -> absent_from m' content start)
           /\ first_from m content start (find_first markers content start)).
Proof.
  intros Hs. induction markers as [|m rest IH].
  - left. split; [reflexivity|]. intros m [].
  - cbn [find_first].
    destruct (find_cases content m start Hs) as [[H1 H2] | [H1 H2]].
    + rewrite H1. destruct rest as [|m2 rest].
      * left. split; [reflexivity|]. intros m' [<- | []]. exact H2.
      * change (-1 =? -1) with true. cbv iota.
        destruct IH as [[H3 H4] | (H3 & before & m' & after & He & Hb & Hf)].
        -- left. split; [exact H3|]. intros m' [<- | Hin]; [exact H2 | auto].
        -- right. split; [exact H3|].
           exists (m :: before), m', after. split; [rewrite He; reflexivity|].
           split; [|exact Hf]. intros m0 [<- | Hin]; [exact H2 | auto].
    + assert (E : find_first (m :: rest) content start = find content m start).
      { cbn [find_first]. destruct rest; [reflexivity|].
        destruct (find content m start =? -1) eqn:E; [|reflexivity].
        apply Z.eqb_eq in E. contradiction. }
      cbn [find_first] in E. rewrite E.
      right. split; [exact H1|]. exists [], m, rest.
      split; [reflexivity|]. split; [intros m' []|exact H2].
Qed.

Lemma locate_some (sm em : list str) (content : str) (a b : Z) :
  locate sm em content = Some (a, b) ->
  a = find_first sm content 0 /\ b = find_first em content a
  /\ a <> -1 /\ b <> -1.
Proof.
  unfold locate. intros H.
  destruct (find_first sm content 0 =? -1) eqn:Ea; [discriminate|].
  destruct (find_first em content (find_first sm content 0) =? -1) eqn:Eb;
    [discriminate|].
  simpl in H. injection H as <- <-.
  apply Z.eqb_neq in Ea. apply Z.eqb_neq in Eb. auto.
Qed.

Lemma locate_none (sm em : list str) (content : str) :
  find_first sm content 0 = -1
  \/ find_first em content (find_first sm content 0) = -1 ->
  locate sm em content = None.
Proof.
  unfold locate. intros [H | H]; rewrite H; [reflexivity|].
  rewrite orb_true_r. reflexivity.
Qed.

Lemma find_first_absent (markers : list str) (content : str) (start : Z) :
  0 <= start ->
  (forall m, In m markers -> absent_from m content start) ->
  find_first markers content start = -1.
Proof.
  intros Hs Ha.
  destruct (find_first_cases markers content start Hs)
    as [[H _] | (_ & before & m & after & He & _ & Hf)]; [exact H|].
  destruct Hf as (Hle & Ho & _). exfalso.
  refine (Ha m _ _ Hle Ho).
  rewrite He. apply in_or_app. right. left. reflexivity.
Qed.

Lemma find_first_range (markers : list str) (content : str) (start : Z) :
  0 <= start -> find_first markers content start <> -1 ->
  start <= find_first markers content start <= len content.
Proof.
  intros Hs Hn.
  destruct (find_first_cases markers content start Hs)
    as [[H _] | (_ & before & m & after & _ & _ & Hf)]; [contradiction|].
  destruct Hf as (Hle & [Hr _] & _). lia.
Qed.

(** ** Slices *)

Lemma slice_to (s : str) (a : Z) :
  0 <= a <= len s -> slice s None (Some a) = take (Z.to_nat a) s.
Proof.
  intros H. unfold slice, clamp_index.
  replace (a <? 0) with false by (symmetry; apply Z.ltb_ge; lia).
  rewrite Z.min_l, Z.sub_0_r by lia. reflexivity.
Qed.

Lemma slice_from (s : str) (a : Z) :
  0 <= a <= len s -> slice s (Some a) None = drop (Z.to_nat a) s.
Proof.
  intros H. unfold slice, clamp_index.
  replace (a <? 0) with false by (symmetry; apply Z.ltb_ge; lia).
  rewrite Z.min_l by lia. apply take_ge. rewrite length_drop.
  unfold len in *. lia.
Qed.

Lemma slice_between (s : str) (a b : Z) :
  0 <= a <= b -> b <= len s ->
  slice s (Some a) (Some b) = take (Z.to_nat b - Z.to_nat a) (drop (Z.to_nat a) s).
Proof.
  intros H Hb. unfold slice, clamp_index.
  replace (a <? 0) with false by (symmetry; apply Z.ltb_ge; lia).
  replace (b <? 0) with false by (symmetry; apply Z.ltb_ge; lia).
  rewrite !Z.min_l by lia. f_equal. lia.
Qed.

(** The three slices of the scripts put the document together again. *)
Lemma slices_cover (s : str) (a b : Z) :
  0 <= a <= b -> b <= len s ->
  slice s None (Some a) ++ slice s (Some a) (Some b) ++ slice s (Some b) None = s.
Proof.
  intros H Hb. rewrite slice_to, slice_between, slice_from by lia.
  rewrite <- (take_drop (Z.to_nat a) s) at 4. f_equal.
  rewrite <- (take_drop (Z.to_nat b - Z.to_nat a) (drop (Z.to_nat a) s)) at 2.
  f_equal. rewrite drop_drop. f_equal. lia.
Qed.

Lemma locate_ordered (sm em : list str) (content : str) (a b : Z) :
  locate sm em content = Some (a, b) -> 0 <= a <= b /\ b <= len content.
Proof.
  intros H. apply locate_some in H as (Ha & Hb & Na & Nb).
  pose proof (find_first_range sm content 0 ltac:(lia)) as Ra.
  rewrite <- Ha in Ra. specialize (Ra Na).
  pose proof (find_first_range em content a ltac:(lia)) as Rb.
  rewrite <- Hb in Rb. specialize (Rb Nb). lia.
Qed.

Lemma patch_located (sm em : list str)
    (rewrite : str * list line -> str * list line) (content : str) (a b : Z) :
  locate sm em content = Some (a, b) ->
  patch sm em rewrite content
  = let st := rewrite (slice content (Some a) (Some b),
                       [FoundFunction a b;
                        FunctionLength (length (slice content (Some a) (Some b)))]) in
    Run 0 (snd st ++ [Updated])
        (Some (new_content (slice content None (Some a)) (fst st)
                           (slice content (Some b) None))).
Proof. unfold patch. intros ->. reflexivity. Qed.

(** Only the region between the offsets differs after the reassembly. *)
Lemma new_content_frame (content region : str) (a b : Z) :
  0 <= a <= b -> b <= len content ->
  let out := new_content (slice content None (Some a)) region
                         (slice content (Some b) None) in
  slice out None (Some a) = slice content None (Some a)
  /\ slice out (Some (len out - (len content - b))) None
     = slice content (Some b) None
  /\ len out = a + len region + (len content - b).
Proof.
  intros H Hb out.
  assert (Hl : len out = a + len region + (len content - b)).
  { unfold out, new_content, len in *.
    rewrite slice_to, slice_from by (unfold len; lia).
    rewrite !length_app, length_take, length_drop. lia. }
  assert (0 <= len region) by (unfold len; lia).
  split; [|split; [|exact Hl]].
  - rewrite (slice_to out) by lia.
    unfold out, new_content.
    rewrite (slice_to content) by lia.
    rewrite take_app_le by (rewrite length_take; unfold len in *; lia).
    rewrite take_take. f_equal. lia.
  - rewrite Hl. rewrite (slice_from out) by lia.
    unfold out, new_content.
    rewrite (slice_to content), (slice_from content) by lia.
    rewrite app_assoc, drop_app_length'; [reflexivity|].
    rewrite length_app, length_take. unfold len in *. lia.
Qed.

Lemma main_of_patch (sc : script) :
  main_of sc = patch start_markers (end_markers_of sc) (rewrite_of sc).
Proof.
  destruct sc; cbn [main_of end_markers_of rewrite_of];
    [unfold FixBotTabs.main | unfold FixSingleTab.main]; reflexivity.
Qed.

Lemma find_absent (s sub : str) (start : Z) :
  0 <= start -> find s sub start = -1 -> absent_from sub s start.
Proof.
  intros Hs H. destruct (find_cases s sub start Hs) as [[_ Ha] | [Hn _]];
    [exact Ha | contradiction].
Qed.

(** ** The locator *)

(** C1. When no start marker occurs in the document, or no end marker
    occurs at or after the start offset, the script exits with status 1
    and never writes: the file keeps the content that was read. *)
Theorem fail_closed (sc : script) (content : str) :
  (forall m, In m start_markers -> absent_from m content 0)
  \/ (forall m, In m (end_markers_of sc) ->
        absent_from m content (find_first start_markers content 0)) ->
  exit_status (main_of sc content) = 1
  /\ exit_status (main_of sc content) <> 0
  /\ written (main_of sc content) = None
  /\ file_after content (main_of sc content) = content.
Proof.
  intros H.
  assert (Hn : locate start_markers (end_markers_of sc) content = None).
  { apply locate_none. destruct H as [H | H].
    - left. apply find_first_absent; [lia | exact H].
    - destruct (Z.eq_dec (find_first start_markers content 0) (-1)) as [E | E];
        [left; exact E | right].
      apply find_first_absent; [|exact H].
      pose proof (find_first_range start_markers content 0 ltac:(lia) E). lia. }
  rewrite main_of_patch. unfold file_after, patch. rewrite Hn. simpl.
  repeat split. lia.
Qed.

Lemma fail_closed_witness :
  written (main_of FixBotTabsPy (codes "function f() {}")) = None.
Proof.
  apply (fail_closed FixBotTabsPy (codes "function f() {}")).
  left. intros m Hm. apply find_absent; [lia|].
  repeat (destruct Hm as [<- | Hm]; [vm_compute; reflexivity|]).
  destruct Hm.
Defined.

Lemma locate_decides (sc : script) (content : str) (a b : Z) :
  locate start_markers (end_markers_of sc) content = Some (a, b) ->
  decides start_markers content 0 a /\ decides (end_markers_of sc) content a b.
Proof.
  intros H. pose proof (locate_ordered _ _ _ _ _ H) as Ho.
  apply locate_some in H as (Ha & Hb & Na & Nb). split.
  - destruct (find_first_cases start_markers content 0 ltac:(lia))
      as [[E _] | [_ Hd]]; [congruence|].
    rewrite <- Ha in Hd. exact Hd.
  - destruct (find_first_cases (end_markers_of sc) content a ltac:(lia))
      as [[E _] | [_ Hd]]; [congruence|].
    rewrite <- Hb in Hd. exact Hd.
Qed.

(** C3. The start offset is the first occurrence of the first start marker
    of the list that occurs in the document, and the end offset is the first
    occurrence, from the start offset on, of the first end marker of the
    list that occurs from there on; it is never before the start offset. *)
Theorem locator_priority (sc : script) (content : str) (a b : Z) :
  locate start_markers (end_markers_of sc) content = Some (a, b) ->
  decides start_markers content 0 a
  /\ decides (end_markers_of sc) content a b
  /\ a <= b.
Proof.
  intros H. pose proof (locate_ordered _ _ _ _ _ H) as Ho.
  destruct (locate_decides sc content a b H) as [Hs He].
  repeat split; [exact Hs | exact He | lia].
Qed.

Lemma locator_priority_witness :
  decides start_markers
    (codes "x;" ++ nth 1 start_markers [] ++ codes "a) {} module.exports = f;") 0 2.
Proof.
  apply (locator_priority FixSingleTabPy
           (codes "x;" ++ nth 1 start_markers [] ++ codes "a) {} module.exports = f;")
           2 48).
  vm_compute. reflexivity.
Defined.

Lemma occurs_at_comparable (m m' s : str) (i : Z) :
  occurs_at m s i -> occurs_at m' s i -> comparable m m' = true.
Proof.
  intros [_ H] [_ H']. exact (prefixes_comparable _ _ _ H H').
Qed.

Lemma markers_distinct (sc : script) (m m' : str) :
  In m start_markers -> In m' (end_markers_of sc) -> comparable m m' = false.
Proof.
  intros Hm Hm'.
  assert (Hc : forallb (fun x => forallb (fun y => negb (comparable x y))
                                         (end_markers_of sc)) start_markers = true)
    by (destruct sc; vm_compute; reflexivity).
  rewrite forallb_forall in Hc. specialize (Hc m Hm).
  rewrite forallb_forall in Hc. specialize (Hc m' Hm').
  apply negb_true_iff in Hc. exact Hc.
Qed.

(** C8. When the boundary check passes, the offsets satisfy
    [0 <= start_offset < end_offset <= len(document)], and the script goes
    on to exit with status 0. *)
Theorem region_invariant (sc : script) (content : str) (a b : Z) :
  locate start_markers (end_markers_of sc) content = Some (a, b) ->
  0 <= a /\ a < b /\ b <= len content
  /\ exit_status (main_of sc content) = 0.
Proof.
  intros H. pose proof (locate_ordered _ _ _ _ _ H) as Ho.
  destruct (locate_decides sc content a b H) as (Hs & He).
  assert (Hne : a <> b).
  { intros <-.
    destruct Hs as (b1 & m & a1 & E1 & _ & _ & O1 & _).
    destruct He as (b2 & m' & a2 & E2 & _ & _ & O2 & _).
    pose proof (occurs_at_comparable _ _ _ _ O1 O2) as Hc.
    rewrite (markers_distinct sc m m') in Hc; [discriminate| |].
    - rewrite E1. apply in_or_app. right. left. reflexivity.
    - rewrite E2. apply in_or_app. right. left. reflexivity. }
  repeat split; try lia.
  rewrite main_of_patch, (patch_located _ _ _ _ _ _ H). reflexivity.
Qed.

Lemma region_invariant_witness :
  0 <= 0 /\ 0 < 67 /\ 67 <= 92
  /\ exit_status
       (main_of FixBotTabsPy
          (nth 0 start_markers [] ++ codes " f(); "
           ++ nth 1 FixBotTabs.end_markers [] ++ codes " { run };")) = 0.
Proof.
  apply (region_invariant FixBotTabsPy
           (nth 0 start_markers [] ++ codes " f(); "
            ++ nth 1 FixBotTabs.end_markers [] ++ codes " { run };") 0 67).
  vm_compute. reflexivity.
Defined.

(** ** The reassembly *)

(** C2. The content written is [document[:start_offset] + region_text' +
    document[end_offset:]] for the region text the rewriting returns; and
    for every region text put between the two slices, the output begins with
    [document[:start_offset]], ends with [document[end_offset:]] as its last
    [len(document) - end_offset] characters, and has the length
    [start_offset + len(region_text') + (len(document) - end_offset)]. *)
Theorem reassembly_frame (sc : script) (content : str) (a b : Z) :
  locate start_markers (end_markers_of sc) content = Some (a, b) ->
  written (main_of sc content)
  = Some (slice content None (Some a)
          ++ fst (rewrite_of sc
                    (slice content (Some a) (Some b),
                     [FoundFunction a b;
                      FunctionLength (length (slice content (Some a) (Some b)))]))
          ++ slice content (Some b) None)
  /\ forall region : str,
       let out := new_content (slice content None (Some a)) region
                              (slice content (Some b) None) in
       out = slice content None (Some a) ++ region ++ slice content (Some b) None
       /\ slice out None (Some a) = slice content None (Some a)
       /\ slice out (Some (len out - (len content - b))) None
          = slice content (Some b) None
       /\ len out = a + len region + (len content - b).
Proof.
  intros H. pose proof (locate_ordered _ _ _ _ _ H) as Ho. split.
  - rewrite main_of_patch, (patch_located _ _ _ _ _ _ H). reflexivity.
  - intros region out. split; [reflexivity|].
    apply new_content_frame; lia.
Qed.

Lemma reassembly_frame_witness :
  written (main_of FixSingleTabPy
             (codes "a;" ++ nth 0 start_markers []
              ++ codes " productPage.goto(u); module.exports = f;"))
  = Some (codes "a;" ++ nth 0 start_markers []
          ++ codes " page.goto(u); module.exports = f;").
Proof.
  destruct (reassembly_frame FixSingleTabPy
              (codes "a;" ++ nth 0 start_markers []
               ++ codes " productPage.goto(u); module.exports = f;") 2 85)
    as [Hw _]; [vm_compute; reflexivity|].
  rewrite Hw. vm_compute. reflexivity.
Defined.

(** ** The rules of the tables *)

Lemma length_pos_nonempty (s : str) : (0 <? length s)%nat = true -> s <> [].
Proof. destruct s; [discriminate | congruence]. Qed.

Lemma replace_absent (s p r : str) :
  p <> [] -> count s p = O -> replace s p r = s.
Proof.
  intros Hp. induction s as [|s IH|c s Hc IH] using (scan_ind p Hp); intros H.
  - apply replace_nil, Hp.
  - rewrite count_hit in H by exact Hp. discriminate.
  - rewrite (count_miss _ Hp _ _ Hc) in H.
    rewrite (replace_miss _ _ Hp _ _ Hc), IH by exact H. reflexivity.
Qed.

(** A turn of the loop leaves in the region what [replace] returns: the
    guard [count > 0] only saves the call that changes nothing. *)
Lemma replace_step_text (st : str * list line) (rule : str * str) :
  fst rule <> [] ->
  fst (replace_step st rule) = replace (fst st) (fst rule) (snd rule).
Proof.
  intros Hp. unfold replace_step.
  destruct (0 <? count (fst st) (fst rule))%nat eqn:E; [reflexivity|].
  apply Nat.ltb_ge in E. symmetry.
  apply replace_absent; [exact Hp | lia].
Qed.

Lemma rules_ok (sc : script) (rule : str * str) :
  In rule (replacements_of sc) -> rule_ok rule = true.
Proof.
  assert (H : forallb rule_ok (replacements_of sc) = true)
    by (destruct sc; vm_compute; reflexivity).
  rewrite forallb_forall in H. apply H.
Qed.

(** C4. For every rule [(p, r)] of the tables ([p] does not overlap itself
    and [r] does not contain [p]) and every region text, the count of the
    turn is the number of occurrences of [p] in the region text; after the
    turn [p] has no occurrence and [r] has exactly [count] more than before;
    the count is printed when it is positive; and a rule with no occurrence
    leaves region text and output as they were. *)
Theorem substitution_totality (sc : script) (p r s : str) (out : list line) :
  In (p, r) (replacements_of sc) ->
  let n := count s p in
  let st' := replace_step (s, out) (p, r) in
  (inside_free 1 p p /\ occurrences p r = O)
  /\ n = occurrences p s
  /\ occurrences p (fst st') = O
  /\ occurrences r (fst st') = (occurrences r s + n)%nat
  /\ snd st' = out ++ (if (0 <? n)%nat then [Replaced p r n] else [])
  /\ (n = O -> st' = (s, out)).
Proof.
  intros Hin n st'. apply rules_ok in Hin. unfold rule_ok in Hin.
  cbn [fst snd] in Hin. unfold apartb in Hin.
  repeat match goal with
         | H : _ && _ = true |- _ => apply andb_true_iff in H as [? ?]
         end.
  assert (Hp : p <> []) by (apply length_pos_nonempty; assumption).
  assert (Hr : r <> []) by (apply length_pos_nonempty; assumption).
  assert (Hpr : inside_free 0 p r) by (apply inside_freeb_sound; assumption).
  assert (Hrp : inside_free 0 r p) by (apply inside_freeb_sound; assumption).
  assert (Hpp : inside_free 1 p p) by (apply inside_freeb_sound; assumption).
  assert (Hrr : inside_free 1 r r) by (apply inside_freeb_sound; assumption).
  assert (Ht : fst st' = replace s p r)
    by (apply (replace_step_text (s, out) (p, r)), Hp).
  split; [split; [exact Hpp | apply Nat.eqb_eq; assumption]|].
  split; [apply count_occurrences; assumption|].
  split; [rewrite Ht; apply replace_removes_all; assumption|].
  split; [rewrite Ht; apply replace_adds; assumption|].
  unfold st', replace_step. cbn [fst snd]. fold n.
  destruct (0 <? n)%nat eqn:E.
  - split; [reflexivity|]. apply Nat.ltb_lt in E. lia.
  - rewrite app_nil_r. split; reflexivity.
Qed.

Lemma substitution_totality_witness :
  occurrences (codes "page.goto")
    (fst (replace_step (codes "a productPage.goto(u); productPage.goto(v)", [])
                       (codes "productPage.goto", codes "page.goto")))
  = (occurrences (codes "page.goto") (codes "a productPage.goto(u); productPage.goto(v)")
     + 2)%nat.
Proof.
  apply (substitution_totality FixSingleTabPy
           (codes "productPage.goto") (codes "page.goto")
           (codes "a productPage.goto(u); productPage.goto(v)") []).
  vm_compute. right. left. reflexivity.
Defined.

(** ** The await rules *)

Section Redundant.
Variables w p r : str.
Hypothesis p_nonempty : p <> [].
Hypothesis w_p : inside_free 0 w p.
Hypothesis r_p : inside_free 0 r p.
Hypothesis p_wp : inside_free 0 p (w ++ p).
Hypothesis p_r : inside_free 0 p r.

Lemma prefixed_nonempty : w ++ p <> [].
Proof using p_nonempty.
  intros H. apply (f_equal length) in H. rewrite length_app in H.
  apply p_nonempty, length_zero_iff_nil. simpl in H. lia.
Qed.

(** The rule [(w ++ p, w ++ r)] before the rule [(p, r)] changes nothing
    of what the rule [(p, r)] does alone. *)
Lemma prefixed_rule_redundant (s : str) :
  replace (replace s (w ++ p) (w ++ r)) p r = replace s p r.
Proof using p_nonempty w_p r_p p_wp p_r.
  pose proof prefixed_nonempty as Hwp.
  remember (length s) as n eqn:Hn. revert s Hn.
  induction n as [n IH] using lt_wf_ind. intros s Hn.
  destruct s as [|c s]; [rewrite (replace_nil _ _ Hwp); reflexivity|].
  destruct (starts_with (w ++ p) (c :: s)) eqn:Ea.
  - rewrite (starts_with_split _ _ Ea).
    set (s' := drop (length (w ++ p)) (c :: s)).
    assert (Hl : (length s' < n)%nat).
    { subst n s'. rewrite length_drop, length_app.
      destruct p; [congruence|]. simpl. lia. }
    rewrite (replace_hit _ _ Hwp), <- !app_assoc.
    rewrite !(replace_over _ _ p_nonempty w) by exact w_p.
    rewrite (replace_over _ _ p_nonempty r) by exact r_p.
    rewrite (replace_hit _ _ p_nonempty).
    rewrite (IH _ Hl s' eq_refl). reflexivity.
  - destruct (starts_with p (c :: s)) eqn:Eb.
    + rewrite (starts_with_split _ _ Eb).
      set (x := drop (length p) (c :: s)).
      assert (Hl : (length x < n)%nat).
      { subst n x. rewrite length_drop. destruct p; [congruence|]. simpl. lia. }
      rewrite (replace_over _ _ Hwp p) by exact p_wp.
      rewrite !(replace_hit _ _ p_nonempty).
      rewrite (IH _ Hl x eq_refl). reflexivity.
    + assert (Hh : starts_with p (replace (c :: s) (w ++ p) (w ++ r)) = false).
      { destruct (starts_with p (replace (c :: s) (w ++ p) (w ++ r))) eqn:E;
          [|reflexivity].
        destruct (replace_head _ _ Hwp _ _ E) as [Hq | (a & s' & Hs & Hr & Hl)];
          [congruence|].
        rewrite Hr, <- app_assoc, app_assoc in E.
        destruct (Nat.le_gt_cases (length p) (length (a ++ w))) as [Hle | Hgt].
        - rewrite Hs, <- app_assoc, app_assoc in Eb.
          rewrite (starts_with_short _ _ _ (p ++ s') E Hle) in Eb. discriminate.
        - rewrite (inside_free_blocks p r (a ++ w) _ p_r Hgt) in E.
          discriminate. }
      rewrite (replace_miss _ _ Hwp _ _ Ea) in Hh |- *.
      rewrite (replace_miss _ _ p_nonempty _ _ Hh).
      rewrite (replace_miss _ _ p_nonempty _ _ Eb).
      rewrite (IH (length s) ltac:(subst n; simpl; lia) s eq_refl).
      reflexivity.
Qed.
End Redundant.

Lemma replacements_by_method :
  FixBotTabs.replacements = map await_rule methods ++ map plain_rule methods.
Proof. reflexivity. Qed.

Lemma methods_ok (x : str) : In x methods -> method_ok x = true.
Proof.
  assert (H : forallb method_ok methods = true) by (vm_compute; reflexivity).
  rewrite forallb_forall in H. apply H.
Qed.

(** C10. For every method of the table and every region text, the turn of
    the await rule followed by the turn of the plain rule leaves the region
    text that the turn of the plain rule alone leaves. *)
Theorem await_rules_redundant (x s : str) (out : list line) :
  In x methods ->
  In (await_rule x) FixBotTabs.replacements
  /\ In (plain_rule x) FixBotTabs.replacements
  /\ fst (replace_step (replace_step (s, out) (await_rule x)) (plain_rule x))
     = fst (replace_step (s, out) (plain_rule x)).
Proof.
  intros Hx. rewrite replacements_by_method.
  split; [apply in_or_app; left; apply in_map, Hx|].
  split; [apply in_or_app; right; apply in_map, Hx|].
  pose proof (methods_ok x Hx) as Hok. unfold method_ok in Hok.
  repeat match goal with
         | H : _ && _ = true |- _ => apply andb_true_iff in H as [? ?]
         end.
  set (p := fst (plain_rule x)) in *. set (r := snd (plain_rule x)) in *.
  assert (Hp : p <> []) by (apply length_pos_nonempty; assumption).
  assert (Ha : await_rule x = (codes "await" ++ p, codes "await" ++ r))
    by reflexivity.
  assert (Hwp : codes "await" ++ p <> []) by (apply prefixed_nonempty, Hp).
  rewrite !replace_step_text by (rewrite ?Ha; assumption).
  rewrite Ha. cbn [fst snd]. fold p r.
  apply prefixed_rule_redundant; try assumption;
    apply inside_freeb_sound; assumption.
Qed.

Lemma await_rules_redundant_witness :
  fst (replace_step
         (replace_step (codes "x = await page.click(a); page.click(b)", [])
                       (await_rule (codes "click")))
         (plain_rule (codes "click")))
  = fst (replace_step (codes "x = await page.click(a); page.click(b)", [])
                      (plain_rule (codes "click"))).
Proof.
  apply (await_rules_redundant (codes "click")
           (codes "x = await page.click(a); page.click(b)") []).
  vm_compute. do 7 right. left. reflexivity.
Defined.

(** ** The scenario *)

(** C9, as stated: the region text after the rule would be the text between
    the markers.  The region starts at the first character of the start
    marker, so it is not. *)
Lemma scenario_region_counterexample :
  ~ (scenario_region scenario_rule scenario_document
       = Some ([10%N] ++ codes "await productPage.click(x);" ++ [10%N])
     /\ written (scenario_patch scenario_rule scenario_document)
        = Some scenario_output).
Proof. vm_compute. intros [H _]. discriminate H. Qed.

(** C9, amended. The region text holds the start marker: the rule turns the
    region [HEAD\nawait page.click(x);\n] into
    [HEAD\nawait productPage.click(x);\n], the output is
    [HEAD\nawait productPage.click(x);\nTAIL], and the inverse rule on that
    output gives back the original region text and the original document. *)
Theorem scenario_round_trip :
  region_after [codes "HEAD"] [codes "TAIL"] (fun st => st) scenario_document
    = Some (codes "HEAD" ++ [10%N] ++ codes "await page.click(x);" ++ [10%N])
  /\ scenario_region scenario_rule scenario_document
     = Some (codes "HEAD" ++ [10%N] ++ codes "await productPage.click(x);" ++ [10%N])
  /\ written (scenario_patch scenario_rule scenario_document)
     = Some scenario_output
  /\ scenario_region scenario_inverse scenario_output
     = Some (codes "HEAD" ++ [10%N] ++ codes "await page.click(x);" ++ [10%N])
  /\ written (scenario_patch scenario_inverse scenario_output)
     = Some scenario_document.
Proof. vm_compute. repeat split. Qed.

(** ** The excisions of fix-single-tab.py *)

Lemma absent_find (s sub : str) (start : Z) :
  0 <= start -> absent_from sub s start -> find s sub start = -1.
Proof.
  intros Hs Ha. destruct (find_cases s sub start Hs) as [[H _] | [_ Hf]];
    [exact H|].
  destruct Hf as (Hle & Ho & _). destruct (Ha _ Hle Ho).
Qed.

Lemma find_found (s sub : str) (start : Z) :
  0 <= start -> find s sub start <> -1 ->
  first_from sub s start (find s sub start).
Proof.
  intros Hs Hn. destruct (find_cases s sub start Hs) as [[H _] | [_ Hf]];
    [contradiction | exact Hf].
Qed.

Lemma remove_tab_fired (st : str * list line) :
  find (fst st) FixSingleTab.tab_start 0 <> -1 ->
  find (fst st) FixSingleTab.tab_end 0 <> -1 ->
  FixSingleTab.remove_tab_section st
  = (slice (fst st) None (Some (find (fst st) FixSingleTab.tab_start 0))
     ++ slice (fst st) (Some (find (fst st) FixSingleTab.tab_end 0)) None,
     snd st ++ [RemovedTabSection]).
Proof.
  intros Hs He. unfold FixSingleTab.remove_tab_section.
  apply Z.eqb_neq in Hs. apply Z.eqb_neq in He. rewrite Hs, He. reflexivity.
Qed.

Lemma remove_tab_skipped (st : str * list line) :
  find (fst st) FixSingleTab.tab_start 0 = -1
  \/ find (fst st) FixSingleTab.tab_end 0 = -1 ->
  FixSingleTab.remove_tab_section st = st.
Proof.
  unfold FixSingleTab.remove_tab_section. intros [H | H]; rewrite H;
    [reflexivity | rewrite andb_false_r; reflexivity].
Qed.

Lemma remove_wait_skipped (st : str * list line) :
  find (fst st) FixSingleTab.wait_start 0 = -1
  \/ find (fst st) FixSingleTab.wait_end 0 = -1 ->
  FixSingleTab.remove_wait_section st = st.
Proof.
  unfold FixSingleTab.remove_wait_section. intros [H | H]; rewrite H;
    [reflexivity | rewrite andb_false_r; reflexivity].
Qed.

(** C5, as stated: whenever both markers are found, the removal would take
    out the characters from the start marker's offset up to the end marker's
    offset and change nothing else.  With the end marker first in the
    region, nothing is taken out: the text from the end marker up to the
    start marker is there twice. *)
Lemma span_removal_counterexample :
  let region := FixSingleTab.tab_end ++ codes " x " ++ FixSingleTab.tab_start in
  let s := find region FixSingleTab.tab_start 0 in
  let e := find region FixSingleTab.tab_end 0 in
  s <> -1 /\ e <> -1
  /\ ~ deletes_span region s e (fst (FixSingleTab.remove_tab_section (region, [])))
  /\ fst (FixSingleTab.remove_tab_section (region, []))
     = FixSingleTab.tab_end ++ codes " x " ++ region.
Proof.
  intros region s e.
  assert (Hs : s = 66) by (vm_compute; reflexivity).
  assert (He : e = 0) by (vm_compute; reflexivity).
  split; [lia|]. split; [lia|]. split.
  - intros (before & removed & after_ & _ & Hb & Hr & _).
    unfold len in *. rewrite length_app in Hr. lia.
  - vm_compute. reflexivity.
Qed.

(** C5, amended. When both markers are found the removal returns the text
    before the first occurrence of the start marker followed by the text
    from the first occurrence of the end marker in the whole region on; when
    that occurrence is not before the start marker's, this takes out the
    characters from the one offset up to the other and changes nothing
    else. *)
Theorem span_removal (st : str * list line) :
  find (fst st) FixSingleTab.tab_start 0 <> -1 ->
  find (fst st) FixSingleTab.tab_end 0 <> -1 ->
  let region := fst st in
  let s := find region FixSingleTab.tab_start 0 in
  let e := find region FixSingleTab.tab_end 0 in
  first_from FixSingleTab.tab_start region 0 s
  /\ first_from FixSingleTab.tab_end region 0 e
  /\ fst (FixSingleTab.remove_tab_section st)
     = slice region None (Some s) ++ slice region (Some e) None
  /\ (s <= e ->
      deletes_span region s e (fst (FixSingleTab.remove_tab_section st))).
Proof.
  intros Hs He region s e.
  pose proof (find_found region _ 0 ltac:(lia) Hs) as Fs.
  pose proof (find_found region _ 0 ltac:(lia) He) as Fe.
  fold s in Fs. fold e in Fe.
  rewrite (remove_tab_fired st Hs He). cbn [fst]. fold region s e.
  split; [exact Fs|]. split; [exact Fe|]. split; [reflexivity|].
  intros Hle. destruct Fs as (? & [Rs _] & _). destruct Fe as (? & [Re _] & _).
  exists (slice region None (Some s)), (slice region (Some s) (Some e)),
    (slice region (Some e) None).
  split; [symmetry; apply slices_cover; lia|].
  rewrite slice_to, slice_between, slice_from by lia.
  unfold len in *. rewrite length_app, !length_take, length_drop.
  repeat split; lia.
Qed.

Lemma span_removal_witness :
  fst (FixSingleTab.remove_tab_section
         (codes "a; " ++ FixSingleTab.tab_start ++ codes " open(); "
          ++ FixSingleTab.tab_end ++ codes " go();", []))
  = codes "a; " ++ FixSingleTab.tab_end ++ codes " go();".
Proof.
  destruct (span_removal
              (codes "a; " ++ FixSingleTab.tab_start ++ codes " open(); "
               ++ FixSingleTab.tab_end ++ codes " go();", []))
    as (_ & _ & H & _); [vm_compute; discriminate | vm_compute; discriminate |].
  rewrite H. vm_compute. reflexivity.
Defined.

(** C7. An excision of which either span marker is absent from the region
    text leaves region text and output as they are, and the script goes on:
    it writes the reassembled content and exits with status 0. *)
Theorem missing_span_skipped (st : str * list line) (content : str) (a b : Z) :
  locate start_markers FixSingleTab.end_markers content = Some (a, b) ->
  (absent_from FixSingleTab.tab_start (fst st) 0
   \/ absent_from FixSingleTab.tab_end (fst st) 0 ->
   FixSingleTab.remove_tab_section st = st)
  /\ (absent_from FixSingleTab.wait_start (fst st) 0
      \/ absent_from FixSingleTab.wait_end (fst st) 0 ->
      FixSingleTab.remove_wait_section st = st)
  /\ let func_content := slice content (Some a) (Some b) in
     let st1 := replace_loop FixSingleTab.replacements
                  (func_content,
                   [FoundFunction a b; FunctionLength (length func_content)]) in
     let st3 := FixSingleTab.remove_wait_section
                  (FixSingleTab.remove_tab_section st1) in
     FixSingleTab.main content
     = Run 0 (snd st3 ++ [Updated])
           (Some (new_content (slice content None (Some a)) (fst st3)
                              (slice content (Some b) None))).
Proof.
  intros H. split; [|split].
  - intros [Ha | Ha]; apply remove_tab_skipped; [left | right];
      apply absent_find; (lia || exact Ha).
  - intros [Ha | Ha]; apply remove_wait_skipped; [left | right];
      apply absent_find; (lia || exact Ha).
  - unfold FixSingleTab.main. rewrite (patch_located _ _ _ _ _ _ H).
    reflexivity.
Qed.

Lemma missing_span_skipped_witness :
  FixSingleTab.main
    (nth 0 start_markers [] ++ codes " productPage.type(k); module.exports = f;")
  = Run 0 [FoundFunction 0 83; FunctionLength 83;
           Replaced (codes "productPage.type") (codes "page.type") 1; Updated]
        (Some (nth 0 start_markers [] ++ codes " page.type(k); module.exports = f;")).
Proof.
  destruct (missing_span_skipped ([], [])
              (nth 0 start_markers []
               ++ codes " productPage.type(k); module.exports = f;") 0 83)
    as (_ & _ & H); [vm_compute; reflexivity|].
  rewrite H. vm_compute. reflexivity.
Defined.

(** ** A whole table, and a second run *)

Lemma occurrences_zero_count (s p : str) :
  p <> [] -> occurrences p s = O -> count s p = O.
Proof.
  intros Hp. induction s as [|s IH|c s Hc IH] using (scan_ind p Hp); intros H.
  - apply count_nil, Hp.
  - exfalso. destruct p as [|e p']; [congruence|].
    change ((e :: p') ++ s) with (e :: (p' ++ s)) in H.
    rewrite occurrences_cons in H.
    change (e :: p' ++ s) with ((e :: p') ++ s) in H.
    rewrite starts_with_app in H. lia.
  - rewrite (count_miss _ Hp _ _ Hc). apply IH.
    rewrite occurrences_cons in H. lia.
Qed.

Lemma replace_step_idle (st : str * list line) (rule : str * str) :
  fst rule <> [] -> occurrences (fst rule) (fst st) = O ->
  replace_step st rule = st.
Proof.
  intros Hp H. unfold replace_step.
  rewrite (occurrences_zero_count _ _ Hp H). reflexivity.
Qed.

Section Table.
Variable rules : list (str * str).
Hypothesis rules_nonempty :
  forall a, In a rules -> fst a <> [] /\ snd a <> [].
Hypothesis rules_apart :
  forall a b, In a rules -> In b rules ->
    inside_free 0 (fst a) (snd b) /\ inside_free 0 (snd b) (fst a).

Lemma replace_loop_clears_from (rest : list (str * str)) :
  forall st, incl rest rules ->
  forall a, In a rules ->
    occurrences (fst a) (fst st) = O \/ In a rest ->
    occurrences (fst a) (fst (replace_loop rest st)) = O.
Proof using rules_nonempty rules_apart.
  induction rest as [|rule rest IH]; intros st Hincl a Ha H.
  - destruct H as [H | []]. exact H.
  - assert (Hr : In rule rules) by (apply Hincl; left; reflexivity).
    destruct (rules_nonempty rule Hr) as [Hp Hn].
    change (replace_loop (rule :: rest) st)
      with (replace_loop rest (replace_step st rule)).
    apply IH; [intros x Hx; apply Hincl; right; exact Hx | exact Ha |].
    rewrite (replace_step_text st rule Hp).
    destruct H as [H | [-> | H]]; [left | left | right; exact H].
    + destruct (rules_apart a rule Ha Hr) as [H1 H2].
      apply replace_creates_none; assumption.
    + destruct (rules_apart a a Ha Ha) as [H1 H2].
      apply replace_removes_all; assumption.
Qed.

(** After the loop no pattern of the table starts anywhere. *)
Lemma replace_loop_clears (st : str * list line) (a : str * str) :
  In a rules -> occurrences (fst a) (fst (replace_loop rules st)) = O.
Proof using rules_nonempty rules_apart.
  intros Ha. apply replace_loop_clears_from;
    [apply incl_refl | exact Ha | right; exact Ha].
Qed.

(** The loop on a text without any pattern changes and prints nothing. *)
Lemma replace_loop_idle (rest : list (str * str)) (st : str * list line) :
  incl rest rules ->
  (forall a, In a rest -> occurrences (fst a) (fst st) = O) ->
  replace_loop rest st = st.
Proof using rules_nonempty.
  induction rest as [|rule rest IH]; intros Hincl H; [reflexivity|].
  change (replace_loop (rule :: rest) st)
    with (replace_loop rest (replace_step st rule)).
  assert (Hr : In rule rules) by (apply Hincl; left; reflexivity).
  rewrite replace_step_idle;
    [|apply (rules_nonempty rule Hr) | apply H; left; reflexivity].
  apply IH; [intros x Hx; apply Hincl; right; exact Hx|].
  intros a Ha. apply H. right. exact Ha.
Qed.
End Table.

Lemma table_ok_sound (rules : list (str * str)) :
  table_ok rules = true ->
  (forall a, In a rules -> fst a <> [] /\ snd a <> [])
  /\ (forall a b, In a rules -> In b rules ->
        inside_free 0 (fst a) (snd b) /\ inside_free 0 (snd b) (fst a)).
Proof.
  unfold table_ok. rewrite forallb_forall. intros H. split.
  - intros a Ha. specialize (H a Ha).
    apply andb_true_iff in H as [H _]. apply andb_true_iff in H as [H1 H2].
    split; apply length_pos_nonempty; assumption.
  - intros a b Ha Hb. specialize (H a Ha).
    apply andb_true_iff in H as [_ H]. rewrite forallb_forall in H.
    specialize (H b Hb). unfold apartb in H.
    apply andb_true_iff in H as [H1 H2].
    split; apply inside_freeb_sound; assumption.
Qed.

Lemma tables_ok (sc : script) : table_ok (replacements_of sc) = true.
Proof. destruct sc; vm_compute; reflexivity. Qed.

(** The loop of either script, run on its own result, is idle. *)
Lemma replace_loop_twice (sc : script) (st : str * list line) :
  (forall a, In a (replacements_of sc) ->
     occurrences (fst a) (fst (replace_loop (replacements_of sc) st)) = O)
  /\ replace_loop (replacements_of sc) (replace_loop (replacements_of sc) st)
     = replace_loop (replacements_of sc) st.
Proof.
  destruct (table_ok_sound _ (tables_ok sc)) as [Hn Ha].
  assert (Hc : forall a, In a (replacements_of sc) ->
     occurrences (fst a) (fst (replace_loop (replacements_of sc) st)) = O)
    by (intros a Hin; apply replace_loop_clears; assumption).
  split; [exact Hc|].
  apply (replace_loop_idle (replacements_of sc) Hn);
    [apply incl_refl | exact Hc].
Qed.

(** A word absent from [a ++ z] and from [m ++ x], which cannot reach into
    [m], is absent from [a ++ m ++ x]. *)
Lemma splice_absent (q a z m x : str) :
  inside_free 0 q m ->
  occurrences q (a ++ z) = O -> occurrences q (m ++ x) = O ->
  occurrences q (a ++ m ++ x) = O.
Proof.
  intros Hf. induction a as [|c a IH]; intros Ha Hm; [exact Hm|].
  change ((c :: a) ++ z) with (c :: (a ++ z)) in Ha.
  change ((c :: a) ++ m ++ x) with (c :: (a ++ m ++ x)).
  rewrite occurrences_cons in Ha |- *.
  rewrite IH by (lia || exact Hm).
  destruct (starts_with q (c :: a ++ m ++ x)) eqn:E; [exfalso|reflexivity].
  change (c :: a ++ m ++ x) with ((c :: a) ++ m ++ x) in E.
  destruct (Nat.le_gt_cases (length q) (length (c :: a))) as [Hle | Hgt].
  - pose proof (starts_with_short _ _ _ z E Hle) as Hz.
    change ((c :: a) ++ z) with (c :: a ++ z) in Hz.
    rewrite Hz in Ha. simpl in Ha. lia.
  - rewrite (inside_free_blocks q m (c :: a) x Hf Hgt) in E. discriminate.
Qed.

Lemma occurrences_drop (q s : str) (n : nat) :
  occurrences q s = O -> occurrences q (drop n s) = O.
Proof.
  intros H. pose proof (occurrences_app_le q (take n s) (drop n s)) as Hl.
  rewrite take_drop in Hl. lia.
Qed.

Lemma occurs_at_split (m s : str) (i : Z) :
  occurs_at m s i ->
  drop (Z.to_nat i) s = m ++ drop (length m) (drop (Z.to_nat i) s).
Proof. intros [_ H]. apply starts_with_split, H. Qed.

(** [find] passes over a stretch in which the word cannot start and
    stops at the word that follows it. *)
Lemma find_over (l sub x : str) :
  inside_free 0 l sub -> find (l ++ sub ++ x) sub 0 = len l.
Proof.
  intros Hf.
  assert (Ho : occurs_at sub (l ++ sub ++ x) (len l)).
  { unfold occurs_at, len. rewrite Nat2Z.id, length_app, drop_app_length.
    split; [lia | apply starts_with_app]. }
  destruct (find_cases (l ++ sub ++ x) sub 0 ltac:(lia)) as [[_ Ha] | [_ Hi]].
  - destruct (Ha (len l) ltac:(unfold len; lia) Ho).
  - destruct Hi as (H0 & [_ Hs] & Hmin).
    set (i := find (l ++ sub ++ x) sub 0) in *.
    destruct (Z.lt_trichotomy i (len l)) as [Hlt | [He | Hgt]]; [|exact He|].
    + unfold len in Hlt. rewrite drop_app_le in Hs by lia.
      rewrite Hf in Hs by lia. discriminate.
    + destruct (Hmin (len l) ltac:(unfold len in *; lia) Ho).
Qed.

(** The text after the start of [wait_end] holds the quoted message at
    offset 12, where [find] sees it first. *)
Lemma find_complete (x : str) :
  find (FixSingleTab.wait_end ++ x) FixSingleTab.complete 0 = 12.
Proof.
  unfold FixSingleTab.wait_end. rewrite <- app_assoc.
  rewrite find_over; [reflexivity|].
  apply inside_freeb_sound. vm_compute. reflexivity.
Qed.

Lemma remove_tab_keeps_absent (q : str) (st : str * list line) :
  inside_free 0 q FixSingleTab.tab_end ->
  occurrences q (fst st) = O ->
  occurrences q (fst (FixSingleTab.remove_tab_section st)) = O.
Proof.
  intros Hf H0.
  destruct (Z.eq_dec (find (fst st) FixSingleTab.tab_start 0) (-1)) as [Es | Es];
    [rewrite remove_tab_skipped by (left; exact Es); exact H0|].
  destruct (Z.eq_dec (find (fst st) FixSingleTab.tab_end 0) (-1)) as [Ee | Ee];
    [rewrite remove_tab_skipped by (right; exact Ee); exact H0|].
  rewrite (remove_tab_fired st Es Ee). cbn [fst].
  destruct (find_found _ _ 0 ltac:(lia) Es) as (_ & [Rs _] & _).
  destruct (find_found _ _ 0 ltac:(lia) Ee) as (_ & Oe & _).
  pose proof Oe as [Re _].
  rewrite slice_to, slice_from by lia.
  pose proof (occurrences_drop q (fst st)
                (Z.to_nat (find (fst st) FixSingleTab.tab_end 0)) H0) as Hd.
  rewrite (occurs_at_split _ _ _ Oe) in Hd |- *.
  apply (splice_absent q _ (drop (Z.to_nat (find (fst st) FixSingleTab.tab_start 0))
                                 (fst st)));
    [exact Hf | rewrite take_drop; exact H0 | exact Hd].
Qed.

(** What the second excision returns when it applies: the text before the
    start marker, the comment line with the completion log, and the text
    after the completion log's opening. *)
Lemma remove_wait_fired (st : str * list line) :
  find (fst st) FixSingleTab.wait_start 0 <> -1 ->
  find (fst st) FixSingleTab.wait_end 0 <> -1 ->
  FixSingleTab.remove_wait_section st
  = (take (Z.to_nat (find (fst st) FixSingleTab.wait_start 0)) (fst st)
     ++ FixSingleTab.no_wait
     ++ drop (length FixSingleTab.wait_end)
          (drop (Z.to_nat (find (fst st) FixSingleTab.wait_end 0)) (fst st)),
     snd st ++ [RemovedWaitSection]).
Proof.
  intros Es Ee. unfold FixSingleTab.remove_wait_section.
  destruct (find_found _ _ 0 ltac:(lia) Es) as (_ & [Rs _] & _).
  destruct (find_found _ _ 0 ltac:(lia) Ee) as (_ & Oe & _).
  pose proof Oe as [Re _].
  apply Z.eqb_neq in Es. apply Z.eqb_neq in Ee. rewrite Es, Ee. cbn [negb andb].
  rewrite slice_to by lia.
  rewrite (slice_from (fst st) (find (fst st) FixSingleTab.wait_end 0)) by lia.
  rewrite (occurs_at_split _ _ _ Oe).
  set (x := drop (length FixSingleTab.wait_end) _).
  rewrite find_complete.
  rewrite slice_from
    by (unfold len; rewrite length_app;
        change (length FixSingleTab.wait_end) with 35%nat;
        change (Z.of_nat (length FixSingleTab.complete)) with 23; lia).
  change (Z.to_nat (12 + len FixSingleTab.complete))
    with (length FixSingleTab.wait_end).
  rewrite drop_app_length. reflexivity.
Qed.

Lemma remove_wait_keeps_absent (q : str) (st : str * list line) :
  inside_free 0 q FixSingleTab.no_wait ->
  inside_free 0 FixSingleTab.no_wait q ->
  occurrences q (fst st) = O ->
  occurrences q (fst (FixSingleTab.remove_wait_section st)) = O.
Proof.
  intros Hf Hg H0.
  destruct (Z.eq_dec (find (fst st) FixSingleTab.wait_start 0) (-1)) as [Es | Es];
    [rewrite remove_wait_skipped by (left; exact Es); exact H0|].
  destruct (Z.eq_dec (find (fst st) FixSingleTab.wait_end 0) (-1)) as [Ee | Ee];
    [rewrite remove_wait_skipped by (right; exact Ee); exact H0|].
  rewrite (remove_wait_fired st Es Ee). cbn [fst].
  apply (splice_absent q _ (drop (Z.to_nat (find (fst st) FixSingleTab.wait_start 0))
                                 (fst st)));
    [exact Hf | rewrite take_drop; exact H0 |].
  rewrite occurrences_over by exact Hg.
  apply occurrences_drop, occurrences_drop, H0.
Qed.

Lemma seams_ok_sound (a : str * str) :
  In a FixSingleTab.replacements ->
  inside_free 0 (fst a) FixSingleTab.tab_end
  /\ inside_free 0 (fst a) FixSingleTab.no_wait
  /\ inside_free 0 FixSingleTab.no_wait (fst a).
Proof.
  assert (H : seams_ok FixSingleTab.replacements = true)
    by (vm_compute; reflexivity).
  unfold seams_ok in H. rewrite forallb_forall in H. intros Ha.
  specialize (H a Ha). unfold apartb in H.
  apply andb_true_iff in H as [H1 H]. apply andb_true_iff in H as [H2 H3].
  repeat split; apply inside_freeb_sound; assumption.
Qed.

(** After the whole rewriting of fix-single-tab.py no pattern of its table
    starts anywhere. *)
Lemma rewrite_clears (st : str * list line) (a : str * str) :
  In a FixSingleTab.replacements ->
  occurrences (fst a) (fst (FixSingleTab.rewrite st)) = O.
Proof.
  intros Ha. destruct (seams_ok_sound a Ha) as (H1 & H2 & H3).
  unfold FixSingleTab.rewrite.
  apply remove_wait_keeps_absent; [exact H2 | exact H3|].
  apply remove_tab_keeps_absent; [exact H1|].
  exact (proj1 (replace_loop_twice FixSingleTabPy st) a Ha).
Qed.

(** C6, as stated: a second application of the rewriting of
    fix-single-tab.py would leave the output of the first unchanged.  Where
    the start marker of the tab section occurs again after the end marker,
    the second application finds both markers and changes the text. *)
Lemma rerun_counterexample :
  let region := FixSingleTab.tab_start ++ codes " a " ++ FixSingleTab.tab_end
                ++ codes " b " ++ FixSingleTab.tab_start ++ codes " c" in
  let once := fst (FixSingleTab.rewrite (region, [])) in
  once = FixSingleTab.tab_end ++ codes " b " ++ FixSingleTab.tab_start ++ codes " c"
  /\ fst (FixSingleTab.rewrite (once, []))
     = FixSingleTab.tab_end ++ codes " b " ++ once
  /\ fst (FixSingleTab.rewrite (once, [])) <> once.
Proof.
  intros region once.
  split; [vm_compute; reflexivity|]. split; [vm_compute; reflexivity|].
  intros H. apply (f_equal length) in H. vm_compute in H. discriminate H.
Qed.

(** The rewriting of fix-single-tab.py is idle on a text without any
    pattern of its table in which each excision misses one of its markers. *)
Lemma rewrite_idle (st1 : str * list line) :
  (forall a, In a FixSingleTab.replacements ->
     occurrences (fst a) (fst st1) = O) ->
  absent_from FixSingleTab.tab_start (fst st1) 0
  \/ absent_from FixSingleTab.tab_end (fst st1) 0 ->
  absent_from FixSingleTab.wait_start (fst st1) 0
  \/ absent_from FixSingleTab.wait_end (fst st1) 0 ->
  FixSingleTab.rewrite st1 = st1.
Proof.
  intros Hc Ht Hw.
  destruct (table_ok_sound _ (tables_ok FixSingleTabPy)) as [Hn _].
  unfold FixSingleTab.rewrite.
  rewrite (replace_loop_idle _ Hn FixSingleTab.replacements st1)
    by (apply incl_refl || exact Hc).
  rewrite (remove_tab_skipped st1)
    by (destruct Ht as [Ht | Ht]; [left | right]; apply absent_find;
        (lia || exact Ht)).
  apply remove_wait_skipped.
  destruct Hw as [Hw | Hw]; [left | right]; apply absent_find;
    (lia || exact Hw).
Qed.

(** C6, amended. After the rewriting of either script, on every region
    text, every pattern of its table has the count zero and starts nowhere.
    A second application of the rewriting of fix-bot-tabs.py leaves region
    text and output unchanged; so does one of fix-single-tab.py when each
    excision finds one of its span markers absent from the output of the
    first application. *)
Theorem rerun_unchanged (sc : script) (st : str * list line) :
  (forall a, In a (replacements_of sc) ->
     count (fst (rewrite_of sc st)) (fst a) = O
     /\ occurrences (fst a) (fst (rewrite_of sc st)) = O)
  /\ ((sc = FixSingleTabPy ->
       (absent_from FixSingleTab.tab_start (fst (rewrite_of sc st)) 0
        \/ absent_from FixSingleTab.tab_end (fst (rewrite_of sc st)) 0)
       /\ (absent_from FixSingleTab.wait_start (fst (rewrite_of sc st)) 0
           \/ absent_from FixSingleTab.wait_end (fst (rewrite_of sc st)) 0)) ->
      rewrite_of sc (rewrite_of sc st) = rewrite_of sc st).
Proof.
  destruct sc.
  - change (rewrite_of FixBotTabsPy)
      with (replace_loop (replacements_of FixBotTabsPy)).
    destruct (table_ok_sound _ (tables_ok FixBotTabsPy)) as [Hn _].
    destruct (replace_loop_twice FixBotTabsPy st) as [Hc Hi].
    split; [|intros _; exact Hi].
    intros a Hin. split; [|apply Hc, Hin].
    apply occurrences_zero_count; [apply Hn, Hin | apply Hc, Hin].
  - change (rewrite_of FixSingleTabPy) with FixSingleTab.rewrite.
    change (replacements_of FixSingleTabPy) with FixSingleTab.replacements.
    generalize (rewrite_clears st). generalize (FixSingleTab.rewrite st).
    intros st1 Hc.
    destruct (table_ok_sound _ (tables_ok FixSingleTabPy)) as [Hn _].
    split.
    + intros a Hin. split; [|apply Hc, Hin].
      apply occurrences_zero_count; [apply Hn, Hin | apply Hc, Hin].
    + intros H. destruct (H eq_refl) as [Ht Hw].
      exact (rewrite_idle st1 Hc Ht Hw).
Qed.

Lemma rerun_unchanged_witness :
  rewrite_of FixSingleTabPy
    (rewrite_of FixSingleTabPy
       (codes "a; " ++ FixSingleTab.tab_start ++ codes " open(); "
        ++ FixSingleTab.tab_end ++ codes " productPage.goto(u); "
        ++ FixSingleTab.wait_start ++ codes " w(); "
        ++ FixSingleTab.wait_end ++ codes "');", []))
  = rewrite_of FixSingleTabPy
      (codes "a; " ++ FixSingleTab.tab_start ++ codes " open(); "
       ++ FixSingleTab.tab_end ++ codes " productPage.goto(u); "
       ++ FixSingleTab.wait_start ++ codes " w(); "
       ++ FixSingleTab.wait_end ++ codes "');", []).
Proof.
  apply (proj2 (rerun_unchanged FixSingleTabPy
                  (codes "a; " ++ FixSingleTab.tab_start ++ codes " open(); "
                   ++ FixSingleTab.tab_end ++ codes " productPage.goto(u); "
                   ++ FixSingleTab.wait_start ++ codes " w(); "
                   ++ FixSingleTab.wait_end ++ codes "');", []))).
  intros _. split; left; apply find_absent; (lia || (vm_compute; reflexivity)).
Defined.

(** ** Beyond the boundaries: exit status, output and lengths *)

Lemma decides_occurs (markers : list str) (content : str) (start i : Z) :
  decides markers content start i ->
  exists m, In m markers /\ start <= i /\ occurs_at m content i.
Proof.
  intros (before & m & after & E & _ & Hle & Ho & _).
  exists m. rewrite E. split; [|split; assumption].
  apply in_or_app. right. left. reflexivity.
Qed.

(** The script exits with status 0 exactly when a start marker occurs and
    an end marker occurs at or after the start offset; otherwise the
    status is 1; and it writes exactly when the status is 0. *)
Theorem exit_status_iff (sc : script) (content : str) :
  (exit_status (main_of sc content) = 0 <-> boundaries_present sc content)
  /\ (exit_status (main_of sc content) = 0
      \/ exit_status (main_of sc content) = 1)
  /\ (written (main_of sc content) = None
      <-> exit_status (main_of sc content) = 1).
Proof.
  rewrite main_of_patch. unfold patch.
  destruct (locate start_markers (end_markers_of sc) content) as [[a b]|] eqn:E.
  - cbn [exit_status written]. split; [|split; [left; reflexivity|]].
    + split; [intros _ | reflexivity].
      destruct (locate_decides sc content a b E) as [Hs He].
      apply locate_some in E as (Ea & _).
      destruct (decides_occurs _ _ _ _ Hs) as (m & Hm & _ & Ho).
      destruct (decides_occurs _ _ _ _ He) as (m' & Hm' & Hle & Ho').
      split; [exists m, a; auto|]. exists m', b. rewrite <- Ea. auto.
    + split; [discriminate | lia].
  - cbn [exit_status written]. split; [|split; [right; reflexivity|]].
    + split; [discriminate|]. intros [(m & i & Hm & Ho) (m' & j & Hm' & Hle & Ho')].
      exfalso. unfold locate in E.
      destruct (find_first_cases start_markers content 0 ltac:(lia))
        as [[_ Ha] | [Hn _]].
      { destruct Ho as [Hr Hs]. refine (Ha m Hm i _ (conj Hr Hs)). lia. }
      pose proof (find_first_range _ _ 0 ltac:(lia) Hn) as Hr.
      destruct (find_first_cases (end_markers_of sc) content
                  (find_first start_markers content 0) ltac:(lia))
        as [[_ Hb] | [Hn' _]].
      { exact (Hb m' Hm' j Hle Ho'). }
      apply Z.eqb_neq in Hn. apply Z.eqb_neq in Hn'.
      rewrite Hn, Hn' in E. discriminate.
    + split; reflexivity.
Qed.

Lemma slice_between_length (s : str) (a b : Z) :
  0 <= a <= b -> b <= len s ->
  length (slice s (Some a) (Some b)) = Z.to_nat (b - a).
Proof.
  intros H Hb. rewrite slice_between by lia.
  rewrite length_take, length_drop. unfold len in *. lia.
Qed.

Lemma replace_step_lines (sc : script) (st : str * list line) (rule : str * str) :
  In rule (replacements_of sc) ->
  exists lines, snd (replace_step st rule) = snd st ++ lines
                /\ Forall (rewrite_line sc) lines.
Proof.
  intros Hin. unfold replace_step.
  destruct (0 <? count (fst st) (fst rule))%nat eqn:E.
  - eexists. split; [reflexivity|]. constructor; [|constructor].
    cbn [rewrite_line]. apply Nat.ltb_lt in E.
    rewrite <- surjective_pairing. auto.
  - exists []. rewrite app_nil_r. split; [reflexivity | constructor].
Qed.

Lemma replace_loop_lines (sc : script) (rest : list (str * str)) :
  forall st, incl rest (replacements_of sc) ->
  exists lines, snd (replace_loop rest st) = snd st ++ lines
                /\ Forall (rewrite_line sc) lines.
Proof.
  induction rest as [|rule rest IH]; intros st Hincl.
  - exists []. rewrite app_nil_r. split; [reflexivity | constructor].
  - change (replace_loop (rule :: rest) st)
      with (replace_loop rest (replace_step st rule)).
    destruct (replace_step_lines sc st rule) as (l1 & E1 & F1);
      [apply Hincl; left; reflexivity|].
    destruct (IH (replace_step st rule)) as (l2 & E2 & F2);
      [intros x Hx; apply Hincl; right; exact Hx|].
    exists (l1 ++ l2). rewrite E2, E1, app_assoc. split; [reflexivity|].
    apply Forall_app. auto.
Qed.

Lemma rewrite_of_lines (sc : script) (st : str * list line) :
  exists lines, snd (rewrite_of sc st) = snd st ++ lines
                /\ Forall (rewrite_line sc) lines.
Proof.
  destruct sc.
  - apply (replace_loop_lines FixBotTabsPy), incl_refl.
  - change (rewrite_of FixSingleTabPy) with FixSingleTab.rewrite.
    unfold FixSingleTab.rewrite.
    destruct (replace_loop_lines FixSingleTabPy FixSingleTab.replacements st
                (incl_refl _)) as (l1 & E1 & F1).
    set (st1 := replace_loop FixSingleTab.replacements st) in *.
    assert (H2 : exists l2, snd (FixSingleTab.remove_tab_section st1) = snd st1 ++ l2
                            /\ Forall (rewrite_line FixSingleTabPy) l2).
    { unfold FixSingleTab.remove_tab_section.
      destruct (negb _ && negb _).
      - eexists. split; [reflexivity|]. repeat constructor.
      - exists []. rewrite app_nil_r. split; [reflexivity | constructor]. }
    destruct H2 as (l2 & E2 & F2).
    set (st2 := FixSingleTab.remove_tab_section st1) in *.
    assert (H3 : exists l3, snd (FixSingleTab.remove_wait_section st2) = snd st2 ++ l3
                            /\ Forall (rewrite_line FixSingleTabPy) l3).
    { unfold FixSingleTab.remove_wait_section.
      destruct (negb _ && negb _).
      - eexists. split; [reflexivity|]. repeat constructor.
      - exists []. rewrite app_nil_r. split; [reflexivity | constructor]. }
    destruct H3 as (l3 & E3 & F3).
    exists (l1 ++ l2 ++ l3). rewrite E3, E2, E1, <- !app_assoc.
    split; [reflexivity|]. repeat (apply Forall_app; split); assumption.
Qed.

(** What a run that finds the boundaries prints: the offsets, the length
    [func_end - func_start] of the region, then only replacement lines of
    rules of the table with a positive count and removal lines, and last
    the closing line. *)
Theorem stdout_shape (sc : script) (content : str) (a b : Z) :
  locate start_markers (end_markers_of sc) content = Some (a, b) ->
  exists lines,
    stdout (main_of sc content)
    = [FoundFunction a b; FunctionLength (Z.to_nat (b - a))] ++ lines ++ [Updated]
    /\ Forall (rewrite_line sc) lines.
Proof.
  intros H. pose proof (locate_ordered _ _ _ _ _ H) as Ho.
  rewrite main_of_patch, (patch_located _ _ _ _ _ _ H). cbn [stdout].
  rewrite slice_between_length by lia.
  destruct (rewrite_of_lines sc
              (slice content (Some a) (Some b),
               [FoundFunction a b; FunctionLength (Z.to_nat (b - a))]))
    as (lines & E & F).
  exists lines. rewrite E. cbn [snd]. rewrite <- app_assoc. auto.
Qed.

Lemma stdout_shape_witness :
  exists lines,
    stdout (main_of FixSingleTabPy
              (nth 0 start_markers []
               ++ codes " productPage.type(k); module.exports = f;"))
    = [FoundFunction 0 83; FunctionLength 83] ++ lines ++ [Updated]
    /\ Forall (rewrite_line FixSingleTabPy) lines.
Proof.
  apply (stdout_shape FixSingleTabPy
           (nth 0 start_markers []
            ++ codes " productPage.type(k); module.exports = f;") 0 83).
  vm_compute. reflexivity.
Defined.

(** A document whose region holds no pattern of the table (and, for
    fix-single-tab.py, misses a marker of each section) is written back as
    it was read, and nothing but the boundaries is reported. *)
Theorem nothing_to_patch (sc : script) (content : str) (a b : Z) :
  locate start_markers (end_markers_of sc) content = Some (a, b) ->
  (forall rule, In rule (replacements_of sc) ->
     occurrences (fst rule) (slice content (Some a) (Some b)) = O) ->
  (sc = FixSingleTabPy ->
   (absent_from FixSingleTab.tab_start (slice content (Some a) (Some b)) 0
    \/ absent_from FixSingleTab.tab_end (slice content (Some a) (Some b)) 0)
   /\ (absent_from FixSingleTab.wait_start (slice content (Some a) (Some b)) 0
       \/ absent_from FixSingleTab.wait_end (slice content (Some a) (Some b)) 0)) ->
  main_of sc content
  = Run 0 [FoundFunction a b; FunctionLength (Z.to_nat (b - a)); Updated]
        (Some content).
Proof.
  intros H Hc Hm. pose proof (locate_ordered _ _ _ _ _ H) as Ho.
  rewrite main_of_patch, (patch_located _ _ _ _ _ _ H).
  rewrite slice_between_length by lia.
  assert (Hi : forall out : list line,
             rewrite_of sc (slice content (Some a) (Some b), out)
             = (slice content (Some a) (Some b), out)).
  { intros out. destruct sc.
    - destruct (table_ok_sound _ (tables_ok FixBotTabsPy)) as [Hn _].
      apply (replace_loop_idle _ Hn); [apply incl_refl | exact Hc].
    - destruct (Hm eq_refl) as [Ht Hw].
      change (rewrite_of FixSingleTabPy) with FixSingleTab.rewrite.
      apply rewrite_idle; cbn [fst]; [exact Hc | exact Ht | exact Hw]. }
  cbv zeta. rewrite Hi. unfold new_content. cbn [fst snd].
  rewrite slices_cover by lia. reflexivity.
Qed.

Lemma nothing_to_patch_witness :
  main_of FixBotTabsPy
    (codes "a; " ++ nth 1 start_markers [] ++ codes "page) { run(page); } "
     ++ nth 1 FixBotTabs.end_markers [] ++ codes " f;")
  = Run 0 [FoundFunction 3 64; FunctionLength 61; Updated]
        (Some (codes "a; " ++ nth 1 start_markers [] ++ codes "page) { run(page); } "
               ++ nth 1 FixBotTabs.end_markers [] ++ codes " f;")).
Proof.
  apply (nothing_to_patch FixBotTabsPy
           (codes "a; " ++ nth 1 start_markers [] ++ codes "page) { run(page); } "
            ++ nth 1 FixBotTabs.end_markers [] ++ codes " f;") 3 64).
  - vm_compute. reflexivity.
  - intros rule Hin.
    repeat (destruct Hin as [<- | Hin]; [vm_compute; reflexivity|]).
    destruct Hin.
  - discriminate.
Defined.

(** [replace] changes the length by the difference of the two words for
    each occurrence that [count] counts. *)
Lemma replace_length (s p r : str) :
  p <> [] ->
  len (replace s p r) = len s + Z.of_nat (count s p) * (len r - len p).
Proof.
  intros Hp. unfold len.
  induction s as [|s IH|c s Hc IH] using (scan_ind p Hp).
  - rewrite replace_nil, count_nil by exact Hp. simpl. lia.
  - rewrite replace_hit, count_hit by exact Hp.
    rewrite !length_app. lia.
  - rewrite (replace_miss _ _ Hp _ _ Hc), (count_miss _ Hp _ _ Hc).
    cbn [length]. lia.
Qed.

Lemma growth_sound (sc : script) (rule : str * str) :
  In rule (replacements_of sc) ->
  fst rule <> [] /\ len (snd rule) - len (fst rule) = growth sc.
Proof.
  assert (H : growth_ok sc = true) by (destruct sc; vm_compute; reflexivity).
  unfold growth_ok in H. rewrite forallb_forall in H. intros Hin.
  specialize (H rule Hin). apply andb_true_iff in H as [H1 H2].
  split; [apply length_pos_nonempty, H1 | apply Z.eqb_eq, H2].
Qed.

(** A turn of the loop of fix-bot-tabs.py makes the region 7 characters
    longer for each occurrence it counts, one of fix-single-tab.py 7
    characters shorter. *)
Theorem loop_turn_length (sc : script) (st : str * list line) (rule : str * str) :
  In rule (replacements_of sc) ->
  len (fst (replace_step st rule))
  = len (fst st) + growth sc * Z.of_nat (count (fst st) (fst rule)).
Proof.
  intros Hin. destruct (growth_sound sc rule Hin) as [Hp Hg].
  rewrite (replace_step_text st rule Hp), (replace_length _ _ _ Hp), Hg. lia.
Qed.

Lemma loop_turn_length_witness :
  len (fst (replace_step (codes "x = page.goto(u); await page.goto(v);", [])
                         (codes " page.goto", codes " productPage.goto")))
  = len (codes "x = page.goto(u); await page.goto(v);") + 7 * 2.
Proof.
  apply (loop_turn_length FixBotTabsPy
           (codes "x = page.goto(u); await page.goto(v);", [])
           (codes " page.goto", codes " productPage.goto")).
  vm_compute. do 10 right. left. reflexivity.
Defined.

(** ** The wait section *)




(** ** Rules that never apply *)

Lemma starts_with_trans (q q' s : str) :
  starts_with q q' = true -> starts_with q' s = true -> starts_with q s = true.
Proof.
  revert q' s. induction q as [|c q IH]; intros q' s H1 H2; [reflexivity|].
  destruct q' as [|c' q']; [discriminate|].
  destruct s as [|e s]; [discriminate|]. simpl in *.
  apply andb_true_iff in H1 as [E1 H1]. apply andb_true_iff in H2 as [E2 H2].
  apply N.eqb_eq in E1. apply N.eqb_eq in E2. subst.
  rewrite N.eqb_refl. simpl. exact (IH _ _ H1 H2).
Qed.

(** Where a word starts nowhere, no word that begins with it does. *)
Lemma occurrences_prefix_zero (q q' s : str) :
  starts_with q q' = true -> occurrences q s = O -> occurrences q' s = O.
Proof.
  intros Hq. induction s as [|c s IH]; intros H.
  - simpl in *. destruct (starts_with q' []) eqn:E; [|reflexivity].
    rewrite (starts_with_trans _ _ _ Hq E) in H. discriminate.
  - rewrite occurrences_cons in H |- *.
    destruct (starts_with q' (c :: s)) eqn:E.
    + rewrite (starts_with_trans _ _ _ Hq E) in H. discriminate.
    + rewrite IH by lia. reflexivity.
Qed.

(** A rule whose pattern begins with the pattern of an earlier rule of
    the table finds nothing when its turn comes: the loop does the same
    without it. *)
Lemma replace_loop_shadowed (rules l1 l2 : list (str * str))
    (a dead : str * str) (st : str * list line) :
  table_ok rules = true -> rules = l1 ++ dead :: l2 ->
  In a l1 -> starts_with (fst a) (fst dead) = true ->
  replace_loop rules st = replace_loop (l1 ++ l2) st.
Proof.
  intros Hok -> Ha Hpre. destruct (table_ok_sound _ Hok) as [Hn Hap].
  unfold replace_loop. rewrite !fold_left_app. cbn [fold_left]. f_equal.
  apply replace_step_idle; [apply Hn, in_or_app; right; left; reflexivity|].
  apply (occurrences_prefix_zero (fst a)); [exact Hpre|].
  apply (replace_loop_clears_from _ Hn Hap l1 st).
  - intros x Hx. apply in_or_app. left. exact Hx.
  - apply in_or_app. left. exact Ha.
  - right. exact Ha.
Qed.

(** The rules for [evaluateHandle] never apply in either script: the rule
    for [evaluate] before them has already rewritten their occurrences, so
    the loop returns the same region text and prints the same lines
    without them. *)
Theorem handle_rules_dead (sc : script) (st : str * list line) :
  replace_loop (replacements_of sc) st
  = replace_loop (without_handle (replacements_of sc)) st.
Proof.
  destruct sc; cbn [replacements_of].
  - set (R := FixBotTabs.replacements).
    rewrite (replace_loop_shadowed R (take 17 R) [] (nth 9 R ([], [])) (nth 17 R ([], [])) st);
      [|vm_compute; reflexivity | reflexivity
       |do 9 right; left; reflexivity | vm_compute; reflexivity].
    rewrite app_nil_r.
    rewrite (replace_loop_shadowed (take 17 R) (take 8 R) (drop 9 (take 17 R))
               (nth 0 R ([], [])) (nth 8 R ([], [])) st);
      [|vm_compute; reflexivity | reflexivity
       |left; reflexivity | vm_compute; reflexivity].
    reflexivity.
  - set (R := FixSingleTab.replacements).
    rewrite (replace_loop_shadowed R (take 8 R) [] (nth 0 R ([], [])) (nth 8 R ([], [])) st);
      [|vm_compute; reflexivity | reflexivity
       |left; reflexivity | vm_compute; reflexivity].
    reflexivity.
Qed.

(** ** One script undoes the other, rule by rule *)

Lemma inside_free_blocks_from (k : nat) (q r a x : str) :
  inside_free k q r -> (k <= length a < length q)%nat ->
  starts_with q (a ++ r ++ x) = false.
Proof.
  intros Hf Hl. destruct (starts_with q (a ++ r ++ x)) eqn:E; [|reflexivity].
  pose proof (starts_with_drop _ _ _ E ltac:(lia)) as Hd.
  pose proof (starts_with_split _ _ Hd) as Hx.
  specialize (Hf (length a) (drop (length (drop (length a) q)) (r ++ x)) Hl).
  rewrite <- Hx, starts_with_app in Hf. discriminate.
Qed.

Section Inverse.
Variables w p' r' : str.
Hypothesis w_nonempty : w <> [].
Hypothesis p_nonempty : p' <> [].
Hypothesis r_nonempty : r' <> [].
Hypothesis w_r : inside_free 0 w r'.
Hypothesis r_r : inside_free 1 r' r'.

(** On a text in which [r'] starts nowhere, the rule [(r', p')] undoes the
    rule [(w ++ p', w ++ r')]. *)
Lemma replace_undone (s : str) :
  occurrences r' s = O ->
  replace (replace s (w ++ p') (w ++ r')) r' p' = s.
Proof using w_nonempty p_nonempty r_nonempty w_r r_r.
  pose proof (prefixed_nonempty w p' p_nonempty) as Hwp.
  induction s as [|s IH|c s Hc IH] using (scan_ind (w ++ p') Hwp); intros H0.
  - rewrite (replace_nil _ _ Hwp). apply replace_nil, r_nonempty.
  - rewrite (replace_hit _ _ Hwp), <- !app_assoc.
    rewrite (replace_over _ _ r_nonempty w) by exact w_r.
    rewrite (replace_hit _ _ r_nonempty).
    rewrite IH; [reflexivity|].
    pose proof (occurrences_app_le r' (w ++ p') s). lia.
  - assert (Hh : starts_with r' (replace (c :: s) (w ++ p') (w ++ r')) = false).
    { destruct (starts_with r' (replace (c :: s) (w ++ p') (w ++ r'))) eqn:E;
        [|reflexivity].
      destruct (replace_head _ _ Hwp _ _ E) as [Hq | (a & s' & Hs & Hr & Hl)].
      - rewrite (occurrences_none_head _ _ H0) in Hq. discriminate.
      - rewrite Hr, <- app_assoc, app_assoc in E.
        destruct (Nat.le_gt_cases (length r') (length (a ++ w))) as [Hle | Hgt].
        + pose proof (starts_with_short _ _ _ (p' ++ s') E Hle) as Hz.
          replace ((a ++ w) ++ p' ++ s') with (c :: s) in Hz
            by (rewrite Hs, <- !app_assoc; reflexivity).
          rewrite (occurrences_none_head _ _ H0) in Hz. discriminate.
        + rewrite (inside_free_blocks_from 1 r' r' (a ++ w)) in E;
            [discriminate | exact r_r |].
          rewrite length_app in *.
          assert (0 < length w)%nat
            by (destruct (length w) eqn:Ew;
                [apply length_zero_iff_nil in Ew; contradiction | lia]).
          lia. }
    rewrite (replace_miss _ _ Hwp _ _ Hc) in Hh |- *.
    rewrite (replace_miss _ _ r_nonempty _ _ Hh).
    rewrite IH; [reflexivity|]. rewrite occurrences_cons in H0. lia.
Qed.
End Inverse.

Lemma inverses_ok (x : str) : In x methods -> inverse_ok x = true.
Proof.
  assert (H : forallb inverse_ok methods = true) by (vm_compute; reflexivity).
  rewrite forallb_forall in H. apply H.
Qed.

(** For every method of the tables and every region text in which
    [productPage.X] does not occur, the turn of the rule of
    fix-single-tab.py after the turn of either rule of fix-bot-tabs.py for
    the method gives the region text back. *)
Theorem single_undoes_bot (x s : str) (out out' : list line) :
  In x methods -> occurrences (fst (single_rule x)) s = O ->
  In (single_rule x) FixSingleTab.replacements
  /\ fst (replace_step (fst (replace_step (s, out) (plain_rule x)), out')
                       (single_rule x)) = s
  /\ fst (replace_step (fst (replace_step (s, out) (await_rule x)), out')
                       (single_rule x)) = s.
Proof.
  intros Hx H0. split.
  { change FixSingleTab.replacements with (map single_rule methods).
    apply in_map, Hx. }
  pose proof (inverses_ok x Hx) as Hok. unfold inverse_ok in Hok.
  repeat match goal with
         | H : _ && _ = true |- _ => apply andb_true_iff in H as [? ?]
         end.
  set (r' := fst (single_rule x)) in *. set (p' := snd (single_rule x)) in *.
  assert (Hp : p' <> []) by (apply length_pos_nonempty; assumption).
  assert (Hr : r' <> []) by (apply length_pos_nonempty; assumption).
  assert (Hpl : plain_rule x = (codes " " ++ p', codes " " ++ r')) by reflexivity.
  assert (Haw : await_rule x = (codes "await " ++ p', codes "await " ++ r'))
    by reflexivity.
  assert (Hs : single_rule x = (r', p')) by reflexivity.
  rewrite !replace_step_text
    by (cbn [fst]; rewrite ?Hpl, ?Haw, ?Hs; cbn [fst];
        (assumption || apply prefixed_nonempty; assumption)).
  rewrite Hpl, Haw, Hs. cbn [fst snd].
  split; apply replace_undone; try assumption; try discriminate;
    apply inside_freeb_sound; assumption.
Qed.

Lemma single_undoes_bot_witness :
  fst (replace_step
         (fst (replace_step (codes "x = await page.click(a); page.click(b)", [])
                            (plain_rule (codes "click"))), [])
         (single_rule (codes "click")))
  = codes "x = await page.click(a); page.click(b)".
Proof.
  destruct (single_undoes_bot (codes "click")
              (codes "x = await page.click(a); page.click(b)") [] [])
    as (_ & H & _).
  - vm_compute. do 7 right. left. reflexivity.
  - vm_compute. reflexivity.
  - exact H.
Defined.

(** ** A second run of fix-bot-tabs.py on its own output *)

Lemma starts_with_app_r (q s w : str) :
  starts_with q s = true -> starts_with q (s ++ w) = true.
Proof.
  intros H. rewrite (starts_with_split _ _ H), <- app_assoc.
  apply starts_with_app.
Qed.

Lemma occurrences_zero_drops (q s : str) :
  occurrences q s = O <->
  forall k, (k <= length s)%nat -> starts_with q (drop k s) = false.
Proof.
  induction s as [|c s IH].
  - simpl. split.
    + intros H k _. rewrite drop_nil. destruct (starts_with q []); [discriminate|reflexivity].
    + intros H. specialize (H O ltac:(lia)). simpl in H. rewrite H. reflexivity.
  - rewrite occurrences_cons. split.
    + intros H [|k] Hk.
      * simpl. destruct (starts_with q (c :: s)); [simpl in H; lia | reflexivity].
      * simpl. apply IH; [lia | simpl in Hk; lia].
    + intros H. pose proof (H O ltac:(lia)) as H0. simpl in H0. rewrite H0.
      simpl. apply IH. intros k Hk. apply (H (S k)). simpl. lia.
Qed.

Lemma occurs_at_nat (q s : str) (k : nat) :
  occurs_at q s (Z.of_nat k) <->
  (k <= length s)%nat /\ starts_with q (drop k s) = true.
Proof.
  unfold occurs_at, len. rewrite Nat2Z.id. split; intros [H1 H2]; split;
    (lia || exact H2).
Qed.

Lemma absent_from_occurrences (q s : str) (k : nat) :
  (k <= length s)%nat ->
  absent_from q s (Z.of_nat k) <-> occurrences q (drop k s) = O.
Proof.
  intros Hk. rewrite occurrences_zero_drops. rewrite length_drop. split.
  - intros H j Hj. rewrite drop_drop.
    destruct (starts_with q (drop (k + j) s)) eqn:E; [|reflexivity].
    exfalso. apply (H (Z.of_nat (k + j)) ltac:(lia)).
    apply occurs_at_nat. split; [lia | exact E].
  - intros H j Hj [Hr Ho]. unfold len in Hr.
    specialize (H (Z.to_nat j - k)%nat ltac:(lia)).
    rewrite drop_drop in H.
    replace (k + (Z.to_nat j - k))%nat with (Z.to_nat j) in H by lia.
    congruence.
Qed.

(** A word that starts nowhere in a text starts nowhere in a stretch of it. *)
Lemma occurrences_infix_zero (q u v w : str) :
  occurrences q (u ++ v ++ w) = O -> occurrences q v = O.
Proof.
  intros H. pose proof (occurrences_app_le q u (v ++ w)) as Hl.
  assert (Hv : occurrences q (v ++ w) = O) by lia. clear H Hl.
  apply occurrences_zero_drops. intros k Hk.
  destruct (starts_with q (drop k v)) eqn:E; [|reflexivity].
  rewrite occurrences_zero_drops in Hv.
  specialize (Hv k ltac:(rewrite length_app; lia)).
  rewrite drop_app_le in Hv by lia.
  rewrite (starts_with_app_r _ _ w E) in Hv. discriminate.
Qed.

Lemma find_unique (s sub : str) (start i : Z) :
  0 <= start -> first_from sub s start i -> find s sub start = i.
Proof.
  intros Hs (Hle & Ho & Hmin).
  destruct (find_cases s sub start Hs) as [[_ Ha] | [_ (Hle' & Ho' & Hmin')]].
  - destruct (Ha i Hle Ho).
  - destruct (Z.lt_trichotomy (find s sub start) i) as [Hlt | [E | Hgt]];
      [|exact E|].
    + destruct (Hmin (find s sub start) ltac:(lia) Ho').
    + destruct (Hmin' i ltac:(lia) Ho).
Qed.

Lemma find_first_decided (markers : list str) (s : str) (start i : Z) :
  0 <= start -> decides markers s start i -> find_first markers s start = i.
Proof.
  intros Hs (before & m & after & -> & Hb & Hf).
  pose proof (find_unique _ _ _ _ Hs Hf) as Hm.
  assert (Hi : i <> -1) by (destruct Hf as (? & _); lia).
  induction before as [|m0 before IH].
  - cbn [app find_first]. rewrite Hm. destruct after; [reflexivity|].
    apply Z.eqb_neq in Hi. rewrite Hi. reflexivity.
  - change ((m0 :: before) ++ m :: after) with (m0 :: (before ++ m :: after)).
    cbn [find_first].
    rewrite (absent_find s m0 start Hs) by (apply Hb; left; reflexivity).
    destruct (before ++ m :: after) as [|m1 rest] eqn:E.
    + destruct before; discriminate.
    + change (-1 =? -1) with true. cbv iota. apply IH.
      intros m' Hm'. apply Hb. right. exact Hm'.
Qed.

Lemma rerun_ok_start (sc : script) (m : str) :
  In m start_markers ->
  m <> [] /\ inside_free 1 m m
  /\ (forall e, In e (end_markers_of sc) -> inside_free 0 m e)
  /\ (forall rule, In rule (replacements_of sc) ->
        inside_free 0 m (fst rule)
        /\ inside_free 0 m (snd rule) /\ inside_free 0 (snd rule) m)
  /\ (forall m2, In m2 start_markers ->
        starts_with m m2 = true \/ inside_free 0 m m2).
Proof.
  assert (H : rerun_ok sc = true) by (destruct sc; vm_compute; reflexivity).
  unfold rerun_ok in H. apply andb_true_iff in H as [H _].
  rewrite forallb_forall in H. intros Hm. specialize (H m Hm). cbv beta in H.
  apply andb_true_iff in H as [H Hpairs].
  apply andb_true_iff in H as [H Hrules].
  apply andb_true_iff in H as [H Hends].
  apply andb_true_iff in H as [Hlen Hself].
  rewrite forallb_forall in Hpairs, Hrules, Hends.
  split; [apply length_pos_nonempty; assumption|].
  split; [apply inside_freeb_sound; assumption|].
  split; [|split].
  - intros e Hin. apply inside_freeb_sound, Hends, Hin.
  - intros rule Hin. specialize (Hrules rule Hin). cbv beta in Hrules.
    apply andb_true_iff in Hrules as [Ha Hb]. unfold apartb in Hb.
    apply andb_true_iff in Hb as [Hb Hc].
    repeat split; apply inside_freeb_sound; assumption.
  - intros m2 Hin. specialize (Hpairs m2 Hin). cbv beta in Hpairs.
    apply orb_true_iff in Hpairs as [Ha | Ha];
      [left; assumption | right; apply inside_freeb_sound; assumption].
Qed.

Lemma rerun_ok_end (sc : script) (e : str) :
  In e (end_markers_of sc) ->
  e <> [] /\ inside_free 1 e e
  /\ (forall rule, In rule (replacements_of sc) ->
        inside_free 0 e (snd rule) /\ inside_free 0 (snd rule) e)
  /\ (forall e2, In e2 (end_markers_of sc) ->
        starts_with e e2 = true \/ inside_free 0 e e2).
Proof.
  assert (H : rerun_ok sc = true) by (destruct sc; vm_compute; reflexivity).
  unfold rerun_ok in H. apply andb_true_iff in H as [_ H].
  rewrite forallb_forall in H. intros He. specialize (H e He). cbv beta in H.
  apply andb_true_iff in H as [H Hpairs].
  apply andb_true_iff in H as [H Hrules].
  apply andb_true_iff in H as [Hlen Hself].
  rewrite forallb_forall in Hpairs, Hrules.
  split; [apply length_pos_nonempty; assumption|].
  split; [apply inside_freeb_sound; assumption|].
  split.
  - intros rule Hin. specialize (Hrules rule Hin). cbv beta in Hrules.
    unfold apartb in Hrules. apply andb_true_iff in Hrules as [Ha Hb].
    split; apply inside_freeb_sound; assumption.
  - intros e2 Hin. specialize (Hpairs e2 Hin). cbv beta in Hpairs.
    apply orb_true_iff in Hpairs as [Ha | Ha];
      [left; assumption | right; apply inside_freeb_sound; assumption].
Qed.

(** A word that does not overlap itself and does not start at the head of
    [u ++ z] does not start at the head of [u] followed by the word. *)
Lemma no_reach (q u z w : str) :
  inside_free 1 q q -> (1 <= length u)%nat ->
  starts_with q (u ++ z) = false -> starts_with q (u ++ q ++ w) = false.
Proof.
  intros Hf Hu Hz. destruct (starts_with q (u ++ q ++ w)) eqn:E; [|reflexivity].
  destruct (Nat.le_gt_cases (length q) (length u)) as [Hle | Hgt].
  - rewrite (starts_with_short _ _ _ z E Hle) in Hz. discriminate.
  - rewrite (inside_free_blocks_from 1 q q u w Hf) in E by lia. discriminate.
Qed.

Lemma splice_twice (q pre reg reg' m x' e y : str) :
  reg' = m ++ x' -> inside_free 0 q m -> inside_free 0 q e ->
  occurrences q (pre ++ reg ++ e ++ y) = O -> occurrences q reg' = O ->
  occurrences q (pre ++ reg' ++ e ++ y) = O.
Proof.
  intros -> Hm He H0 Hr. rewrite <- app_assoc.
  apply (splice_absent q pre (reg ++ e ++ y)); [exact Hm | exact H0|].
  rewrite app_assoc.
  apply (splice_absent q (m ++ x') []); [exact He | rewrite app_nil_r; exact Hr|].
  pose proof (occurrences_app_le q (pre ++ reg) (e ++ y)) as Hl.
  rewrite <- app_assoc in Hl. lia.
Qed.

(** The boundaries after a rewriting that keeps the start marker at the
    head of the region and brings no marker into it: the start offset is
    the same and the end offset follows the new region. *)
Lemma relocate_lists (sc : script) (pre reg reg' post : str) :
  locate start_markers (end_markers_of sc) (pre ++ reg ++ post)
  = Some (len pre, len (pre ++ reg)) ->
  (forall m x, In m start_markers -> reg = m ++ x -> exists x', reg' = m ++ x') ->
  (forall q, In q start_markers \/ In q (end_markers_of sc) ->
     occurrences q reg = O -> occurrences q reg' = O) ->
  locate start_markers (end_markers_of sc) (pre ++ reg' ++ post)
  = Some (len pre, len (pre ++ reg')).
Proof.
  intros Hloc Hhead Hnone.
  destruct (locate_decides sc _ _ _ Hloc) as [Ds De].
  destruct Ds as (bs & m & as_ & Es & Hbs & (_ & Om & Mins)).
  destruct De as (be & e & ae & Ee & Hbe & (_ & Oe & Mine)).
  assert (Hm : In m start_markers)
    by (rewrite Es; apply in_or_app; right; left; reflexivity).
  assert (Hein : In e (end_markers_of sc))
    by (rewrite Ee; apply in_or_app; right; left; reflexivity).
  destruct (rerun_ok_start sc m Hm) as (Nm & Smm & Sme & _ & _).
  destruct (rerun_ok_end sc e Hein) as (Ne & See & _ & _).
  assert (Hm0 : starts_with m (reg ++ post) = true).
  { destruct Om as [_ Om]. unfold len in Om.
    rewrite Nat2Z.id, drop_app_length in Om. exact Om. }
  assert (He0 : starts_with e post = true).
  { destruct Oe as [_ Oe]. unfold len in Oe.
    rewrite Nat2Z.id, app_assoc, drop_app_length in Oe. exact Oe. }
  pose proof (starts_with_split _ _ He0) as Hpost.
  set (y := drop (length e) post) in Hpost.
  assert (Hreg : exists x, reg = m ++ x).
  { destruct (Nat.le_gt_cases (length m) (length reg)) as [Hle | Hgt].
    - exists (drop (length m) reg). apply starts_with_split.
      rewrite <- (app_nil_r reg). exact (starts_with_short _ _ _ [] Hm0 Hle).
    - rewrite Hpost in Hm0.
      rewrite (inside_free_blocks m e reg y (Sme e Hein) Hgt) in Hm0.
      discriminate. }
  destruct Hreg as [x Hreg]. destruct (Hhead m x Hm Hreg) as [x' Hreg'].
  assert (Ds' : decides start_markers (pre ++ reg' ++ post) 0 (len pre)).
  { exists bs, m, as_. split; [exact Es|]. split.
    - intros m' Hm'.
      assert (Hm'in : In m' start_markers)
        by (rewrite Es; apply in_or_app; left; exact Hm').
      pose proof (Hbs m' Hm') as Habs.
      destruct (rerun_ok_start sc m' Hm'in) as (_ & _ & Sm'e & _ & Sm'p).
      assert (Z0 : occurrences m' (pre ++ reg ++ post) = O)
        by (apply (proj1 (absent_from_occurrences m' _ 0 ltac:(lia))), Habs).
      apply (proj2 (absent_from_occurrences m' _ 0 ltac:(lia))).
      rewrite drop_0, Hpost.
      apply (splice_twice m' pre reg reg' m x' e y Hreg').
      + destruct (Sm'p m Hm) as [Hpre | Hf]; [exfalso | exact Hf].
        destruct Om as [Hr Ho].
        apply (Habs (len pre) ltac:(unfold len; lia)).
        split; [exact Hr | exact (starts_with_trans _ _ _ Hpre Ho)].
      + apply Sm'e, Hein.
      + rewrite <- Hpost. exact Z0.
      + apply Hnone; [left; exact Hm'in|].
        apply (occurrences_infix_zero m' pre reg post Z0).
    - split; [unfold len; lia|]. split.
      + unfold occurs_at, len. rewrite Nat2Z.id, drop_app_length.
        split; [rewrite !length_app; lia|].
        rewrite Hreg', <- app_assoc. apply starts_with_app.
      + intros j Hj [Hr Ho].
        rewrite drop_app_le in Ho by (unfold len in *; lia).
        rewrite Hreg', <- app_assoc in Ho.
        rewrite (no_reach m (drop (Z.to_nat j) pre) (reg ++ post) (x' ++ post) Smm)
          in Ho; [discriminate | rewrite length_drop; unfold len in *; lia |].
        destruct (starts_with m (drop (Z.to_nat j) pre ++ reg ++ post)) eqn:E;
          [|reflexivity].
        exfalso. apply (Mins j Hj).
        split; [unfold len in *; rewrite !length_app; lia|].
        rewrite drop_app_le by (unfold len in *; lia). exact E. }
  assert (De' : decides (end_markers_of sc) (pre ++ reg' ++ post)
                        (len pre) (len (pre ++ reg'))).
  { exists be, e, ae. split; [exact Ee|]. split.
    - intros e' He'.
      assert (He'in : In e' (end_markers_of sc))
        by (rewrite Ee; apply in_or_app; left; exact He').
      pose proof (Hbe e' He') as Habs.
      destruct (rerun_ok_end sc e' He'in) as (_ & _ & _ & Se'p).
      assert (Z0 : occurrences e' (reg ++ post) = O).
      { rewrite <- (drop_app_length pre (reg ++ post)).
        apply (proj1 (absent_from_occurrences e' (pre ++ reg ++ post) (length pre)
                        ltac:(rewrite length_app; lia))), Habs. }
      apply (proj2 (absent_from_occurrences e' (pre ++ reg' ++ post) (length pre)
                      ltac:(rewrite length_app; lia))).
      rewrite drop_app_length, Hpost.
      apply (splice_absent e' reg' [] e y).
      + destruct (Se'p e Hein) as [Hpre | Hf]; [exfalso | exact Hf].
        destruct Oe as [Hr Ho].
        apply (Habs (len (pre ++ reg)) ltac:(unfold len; rewrite length_app; lia)).
        split; [exact Hr | exact (starts_with_trans _ _ _ Hpre Ho)].
      + rewrite app_nil_r. apply Hnone; [right; exact He'in|].
        apply (occurrences_infix_zero e' [] reg post Z0).
      + rewrite <- Hpost. pose proof (occurrences_app_le e' reg post). lia.
    - split; [unfold len; rewrite length_app; lia|]. split.
      + unfold occurs_at, len. rewrite Nat2Z.id, app_assoc, drop_app_length.
        split; [rewrite !length_app; lia | exact He0].
      + intros j Hj [Hr Ho]. unfold len in Hj. rewrite length_app in Hj.
        rewrite drop_app_ge in Ho by lia.
        rewrite drop_app_le in Ho by lia.
        rewrite Hpost in Ho.
        rewrite (no_reach e (drop (Z.to_nat j - length pre) reg') [] y See) in Ho;
          [discriminate | rewrite length_drop; lia |].
        rewrite app_nil_r. apply occurrences_zero_drops; [|lia].
        apply Hnone; [right; exact Hein|].
        apply occurrences_zero_drops. intros k Hk.
        destruct (starts_with e (drop k reg)) eqn:E; [|reflexivity]. exfalso.
        destruct (Nat.eq_dec k (length reg)) as [-> | Hne].
        * rewrite drop_all, starts_with_nil_r in E by exact Ne. discriminate.
        * apply (Mine (len pre + Z.of_nat k));
            [unfold len; rewrite length_app; lia|].
          split; [unfold len; rewrite !length_app; lia|].
          replace (Z.to_nat (len pre + Z.of_nat k)) with (length pre + k)%nat
            by (unfold len; lia).
          rewrite drop_app_ge by lia.
          replace (length pre + k - length pre)%nat with k by lia.
          rewrite drop_app_le by lia. apply starts_with_app_r, E. }
  unfold locate.
  assert (Hp0 : 0 <= len pre) by (unfold len; lia).
  rewrite (find_first_decided _ _ 0 _ ltac:(lia) Ds').
  rewrite (find_first_decided _ _ (len pre) _ Hp0 De').
  replace (len pre =? -1) with false
    by (symmetry; apply Z.eqb_neq; unfold len; lia).
  replace (len (pre ++ reg') =? -1) with false
    by (symmetry; apply Z.eqb_neq; unfold len; lia).
  reflexivity.
Qed.

Lemma some_eq (x y : str) : Some x = Some y -> x = y.
Proof. intros H. congruence. Qed.

Lemma replace_loop_keeps_head (m : str) (rules : list (str * str)) :
  (forall rule, In rule rules -> fst rule <> [] /\ inside_free 0 m (fst rule)) ->
  forall (x : str) (out : list line),
  exists x', fst (replace_loop rules (m ++ x, out)) = m ++ x'.
Proof.
  induction rules as [|rule rest IH]; intros H x out.
  - exists x. reflexivity.
  - change (replace_loop (rule :: rest) (m ++ x, out))
      with (replace_loop rest (replace_step (m ++ x, out) rule)).
    destruct (H rule ltac:(left; reflexivity)) as [Hp Hf].
    rewrite (surjective_pairing (replace_step (m ++ x, out) rule)).
    rewrite (replace_step_text _ _ Hp). cbn [fst].
    rewrite (replace_over _ _ Hp m x Hf).
    apply IH. intros r Hr. apply H. right. exact Hr.
Qed.

Lemma replace_loop_creates_none (q : str) (rules : list (str * str)) :
  (forall rule, In rule rules ->
     fst rule <> [] /\ snd rule <> []
     /\ inside_free 0 q (snd rule) /\ inside_free 0 (snd rule) q) ->
  forall st, occurrences q (fst st) = O ->
             occurrences q (fst (replace_loop rules st)) = O.
Proof.
  induction rules as [|rule rest IH]; intros H st H0; [exact H0|].
  change (replace_loop (rule :: rest) st)
    with (replace_loop rest (replace_step st rule)).
  destruct (H rule ltac:(left; reflexivity)) as (Hp & Hr & H1 & H2).
  apply IH; [intros r Hin; apply H; right; exact Hin|].
  rewrite (replace_step_text _ _ Hp).
  apply replace_creates_none; assumption.
Qed.

Lemma rerun_lists (pre reg post : str) (l : list line) :
  locate start_markers FixBotTabs.end_markers (pre ++ reg ++ post)
  = Some (len pre, len (pre ++ reg)) ->
  forall reg', reg' = fst (replace_loop FixBotTabs.replacements (reg, l)) ->
  patch start_markers FixBotTabs.end_markers
        (replace_loop FixBotTabs.replacements) (pre ++ reg' ++ post)
  = Run 0 [FoundFunction (len pre) (len (pre ++ reg'));
           FunctionLength (Z.to_nat (len (pre ++ reg') - len pre)); Updated]
        (Some (pre ++ reg' ++ post)).
Proof.
  intros Hloc reg' Hreg'.
  destruct (table_ok_sound _ (tables_ok FixBotTabsPy)) as [Hn Hap].
  assert (Hloc' : locate start_markers (end_markers_of FixBotTabsPy)
                    (pre ++ reg' ++ post)
                  = Some (len pre, len (pre ++ reg'))).
  { apply (relocate_lists FixBotTabsPy pre reg reg' post).
    - exact Hloc.
    - intros m x Hm ->. rewrite Hreg'.
      apply (replace_loop_keeps_head m FixBotTabs.replacements).
      intros rule Hin. split; [apply (Hn rule Hin)|].
      apply (rerun_ok_start FixBotTabsPy m Hm). exact Hin.
    - intros q Hq H0. rewrite Hreg'.
      apply (replace_loop_creates_none q FixBotTabs.replacements); [|exact H0].
      intros rule Hin. destruct (Hn rule Hin) as [Hp Hr].
      split; [exact Hp|]. split; [exact Hr|].
      destruct Hq as [Hq | Hq].
      + apply (rerun_ok_start FixBotTabsPy q Hq). exact Hin.
      + apply (rerun_ok_end FixBotTabsPy q Hq). exact Hin. }
  pose proof (locate_ordered _ _ _ _ _ Hloc') as Ho'.
  rewrite (patch_located _ _ _ _ _ _ Hloc').
  assert (Hs : slice (pre ++ reg' ++ post) (Some (len pre)) (Some (len (pre ++ reg')))
               = reg').
  { rewrite slice_between by lia. unfold len.
    rewrite !Nat2Z.id, drop_app_length, length_app.
    replace (length pre + length reg' - length pre)%nat with (length reg') by lia.
    apply take_app_length. }
  pose proof (slices_cover (pre ++ reg' ++ post) (len pre) (len (pre ++ reg'))
                ltac:(lia) ltac:(lia)) as Hcov.
  rewrite slice_between_length by lia. rewrite Hs in Hcov |- *.
  assert (Hi : forall l' : list line,
             replace_loop FixBotTabs.replacements (reg', l') = (reg', l')).
  { intros l'. apply (replace_loop_idle _ Hn); [apply incl_refl|].
    intros rule Hin. cbn [fst]. rewrite Hreg'.
    apply (replace_loop_clears _ Hn Hap _ rule Hin). }
  cbv zeta. rewrite Hi. cbn [fst snd]. unfold new_content.
  rewrite Hcov. reflexivity.
Qed.

(** fix-bot-tabs.py run on the content it has written finds the function
    at the same start offset, replaces nothing, and writes the same content
    again. *)
Theorem bot_tabs_rerun (content : str) (a b : Z) :
  locate start_markers FixBotTabs.end_markers content = Some (a, b) ->
  exists out b',
    written (FixBotTabs.main content) = Some out
    /\ FixBotTabs.main out
       = Run 0 [FoundFunction a b'; FunctionLength (Z.to_nat (b' - a)); Updated]
             (Some out).
Proof.
  intros Hloc. pose proof (locate_ordered _ _ _ _ _ Hloc) as Ho.
  assert (La : len (slice content None (Some a)) = a).
  { unfold len in *. rewrite slice_to by (unfold len; lia).
    rewrite length_take. lia. }
  assert (Lb : len (slice content None (Some a) ++ slice content (Some a) (Some b))
               = b).
  { unfold len in *.
    rewrite length_app, slice_between_length by (unfold len; lia). lia. }
  assert (Hloc' : locate start_markers FixBotTabs.end_markers
                    (slice content None (Some a)
                     ++ slice content (Some a) (Some b)
                     ++ slice content (Some b) None)
                  = Some (len (slice content None (Some a)),
                          len (slice content None (Some a)
                               ++ slice content (Some a) (Some b)))).
  { rewrite slices_cover by lia. rewrite La, Lb. exact Hloc. }
  pose proof (rerun_lists _ _ _
                [FoundFunction a b;
                 FunctionLength (length (slice content (Some a) (Some b)))]
                Hloc' _ eq_refl) as Hrun.
  rewrite La in Hrun.
  eexists. eexists. split; [|exact Hrun].
  unfold FixBotTabs.main. rewrite (patch_located _ _ _ _ _ _ Hloc).
  reflexivity.
Qed.

Lemma bot_tabs_rerun_witness :
  exists out b',
    written (FixBotTabs.main
               (codes "a; " ++ nth 0 start_markers []
                ++ codes " x = await page.goto(u); module.exports = f;"))
    = Some out
    /\ FixBotTabs.main out
       = Run 0 [FoundFunction 3 b'; FunctionLength (Z.to_nat (b' - 3)); Updated]
             (Some out).
Proof.
  apply (bot_tabs_rerun
           (codes "a; " ++ nth 0 start_markers []
            ++ codes " x = await page.goto(u); module.exports = f;") 3 89).
  vm_compute. reflexivity.
Defined.

(** ** The counts printed account for the length *)

Lemma replaced_total_app (l l' : list line) :
  replaced_total (l ++ l') = (replaced_total l + replaced_total l')%nat.
Proof.
  induction l as [|x l IH]; [reflexivity|].
  destruct x; simpl; rewrite IH; lia.
Qed.

(** Through the loop, the region grows by the growth of the script for
    each occurrence counted in a line printed. *)
Lemma replace_loop_accounting (sc : script) (rest : list (str * str)) :
  forall st, incl rest (replacements_of sc) ->
  len (fst (replace_loop rest st))
  = len (fst st)
    + growth sc * (Z.of_nat (replaced_total (snd (replace_loop rest st)))
                   - Z.of_nat (replaced_total (snd st))).
Proof.
  induction rest as [|rule rest IH]; intros st Hincl.
  - cbn [replace_loop fold_left]. lia.
  - change (replace_loop (rule :: rest) st)
      with (replace_loop rest (replace_step st rule)).
    rewrite IH by (intros x Hx; apply Hincl; right; exact Hx).
    destruct (growth_sound sc rule (Hincl rule ltac:(left; reflexivity)))
      as [Hp Hg].
    rewrite (replace_step_text st rule Hp), (replace_length _ _ _ Hp), Hg.
    assert (Hl : replaced_total (snd (replace_step st rule))
                 = (replaced_total (snd st) + count (fst st) (fst rule))%nat).
    { unfold replace_step.
      destruct (0 <? count (fst st) (fst rule))%nat eqn:E.
      - cbn [snd]. rewrite replaced_total_app. simpl. lia.
      - apply Nat.ltb_ge in E. lia. }
    rewrite Hl. lia.
Qed.

Lemma growth_arith (content : str) (a b : Z) (st' : str * list line)
    (l0 : list line) :
  0 <= a <= b -> b <= len content -> replaced_total l0 = O ->
  len (fst st')
  = len (slice content (Some a) (Some b))
    + 7 * (Z.of_nat (replaced_total (snd st')) - Z.of_nat (replaced_total l0)) ->
  len (new_content (slice content None (Some a)) (fst st')
                   (slice content (Some b) None))
  = len content + 7 * Z.of_nat (replaced_total (snd st' ++ [Updated])).
Proof.
  intros Ha Hb H0 Hacc.
  pose proof (slices_cover content a b Ha Hb) as Hc.
  apply (f_equal len) in Hc. rewrite replaced_total_app. rewrite H0 in Hacc.
  unfold new_content. unfold len in *. rewrite !length_app in Hc |- *.
  simpl replaced_total. lia.
Qed.

(** The content fix-bot-tabs.py writes is longer than the content read by
    7 characters for each occurrence counted in the replacement lines it
    prints. *)
Theorem bot_tabs_growth (content out : str) :
  written (FixBotTabs.main content) = Some out ->
  len out
  = len content + 7 * Z.of_nat (replaced_total (stdout (FixBotTabs.main content))).
Proof.
  intros Hw.
  destruct (locate start_markers FixBotTabs.end_markers content)
    as [[a b]|] eqn:Hloc.
  - pose proof (locate_ordered _ _ _ _ _ Hloc) as Ho.
    unfold FixBotTabs.main in Hw.
    rewrite (patch_located _ _ _ _ _ _ Hloc) in Hw.
    cbv zeta in Hw. cbn [written] in Hw. apply some_eq in Hw. subst out.
    unfold FixBotTabs.main. rewrite (patch_located _ _ _ _ _ _ Hloc).
    apply (growth_arith content a b
             (replace_loop FixBotTabs.replacements
                (slice content (Some a) (Some b),
                 [FoundFunction a b;
                  FunctionLength (length (slice content (Some a) (Some b)))]))
             [FoundFunction a b;
              FunctionLength (length (slice content (Some a) (Some b)))]);
      [lia | lia | reflexivity |].
    exact (replace_loop_accounting FixBotTabsPy FixBotTabs.replacements _
             (incl_refl _)).
  - unfold FixBotTabs.main, patch in Hw. rewrite Hloc in Hw. discriminate Hw.
Qed.

Lemma bot_tabs_growth_witness :
  len (codes "a; " ++ nth 0 start_markers []
       ++ codes " x = await productPage.goto(u); module.exports = f;")
  = len (codes "a; " ++ nth 0 start_markers []
         ++ codes " x = await page.goto(u); module.exports = f;")
    + 7 * Z.of_nat
            (replaced_total
               (stdout (FixBotTabs.main
                          (codes "a; " ++ nth 0 start_markers []
                           ++ codes " x = await page.goto(u); module.exports = f;")))).
Proof.
  apply (bot_tabs_growth
           (codes "a; " ++ nth 0 start_markers []
            ++ codes " x = await page.goto(u); module.exports = f;")).
  vm_compute. reflexivity.
Defined.
